(** * Verification of [validate] (pkg/commands/compute/validate.go)

    [validate] opens a tar.gz package, streams its entries once, records
    which of the required names [fastly.toml] and [main.wasm] it has seen,
    optionally calls a caller-supplied [FileValidator] on every entry, and
    finally reports a required name that was never seen.

    The embedding is shallow: the Go function becomes a computation in a
    small state-and-early-return monad.  Everything the function obtains
    from outside (the file system, the tar reader, the entries' [Close],
    the validator, the iteration order of [range] over a Go map) is an
    explicit input, and every call it makes on the outside world is
    recorded, in order, in a trace. *)

From stdpp Require Import base list strings gmap fin_maps.

Open Scope string_scope.
Open Scope list_scope.

(** ** Go values *)

(** Go's [error] values, as far as [validate] distinguishes them: the
    sentinel [io.EOF], an opaque error carrying a message, and the result
    of [fmt.Errorf] with a [%w] verb, which keeps the wrapped error. *)
Inductive error : Type :=
  | io_EOF
  | errorString (s : string)
  | wrapError (msg : string) (err : error).

#[global] Instance error_eq_dec : EqDecision error.
Proof. solve_decision. Defined.

(** [err.Error()] *)
Definition Error (e : error) : string :=
  match e with
  | io_EOF => "EOF"
  | errorString s => s
  | wrapError msg _ => msg
  end.

(** [fmt.Errorf(prefix + ": %w", err)] *)
Definition Errorf_w (prefix : string) (err : error) : error :=
  wrapError (prefix +:+ ": " +:+ Error err) err.

(** [err == io.EOF]: comparison with the sentinel itself. *)
Definition isEOF (e : error) : bool :=
  match e with io_EOF => true | _ => false end.

(** [archiver.File], reduced to what [validate] uses: [f.Name()] and the
    value that [f.Close()] returns ([None] is Go's [nil]). *)
Record File : Type := mkFile { Name : string; Close : option error }.

#[global] Instance File_eq_dec : EqDecision File.
Proof. solve_decision. Defined.

(** One result of [tar.Read()]: an entry, or a non-nil error. *)
Inductive ReadResult : Type :=
  | ReadFile (f : File)
  | ReadFail (err : error).

#[global] Instance ReadResult_eq_dec : EqDecision ReadResult.
Proof. solve_decision. Defined.

(** What [tar.Open] finds in an opened file: an error, or a tar.gz stream
    given by the successive results of [tar.Read()].  A stream that is
    used up answers [io.EOF]. *)
Inductive Package : Type :=
  | NotTarGz (err : error)
  | TarGz (reads : list ReadResult).

(** The two [range files] statements of [validate]. *)
Inductive Site : Type :=
  | Tracker    (* line 111: for k := range files *)
  | Terminal.  (* line 130: for k, found := range files *)

#[global] Instance Site_eq_dec : EqDecision Site.
Proof. solve_decision. Defined.

(** The calls of [validate], with what they returned. *)
Inductive Event : Type :=
  | EvOpen (name : string) (err : option error)   (* os.Open *)
  | EvTarOpen (err : option error)                (* tar.Open *)
  | EvTarRead (r : ReadResult)                    (* tar.Read *)
  | EvRange (s : Site)                            (* range files *)
  | EvMark (k : string)                           (* files[k] = true *)
  | EvValidate (f : File) (err : option error)    (* fileValidator(f) *)
  | EvFileClose (f : File) (err : option error)   (* f.Close() *)
  | EvTarClose                                    (* deferred tar.Close() *)
  | EvOsClose.                                    (* deferred file.Close() *)

#[global] Instance Event_eq_dec : EqDecision Event.
Proof. solve_decision. Defined.

(** The failure kinds of the specification, one per [return] of a non-nil
    error in [validate]. *)
Inductive Kind : Type :=
  | OpenError                  (* line 86 *)
  | UnarchiveError             (* line 93 *)
  | ReadError                  (* line 108 *)
  | ValidatorError             (* line 120 *)
  | CloseError                 (* line 126 *)
  | MissingRequiredFileError.  (* line 132 *)

#[global] Instance Kind_eq_dec : EqDecision Kind.
Proof. solve_decision. Defined.

(** A statement either falls through with a value or executes [return]. *)
Inductive Res (A : Type) : Type :=
  | Next (a : A)
  | Return (k : Kind) (err : error).
Arguments Next {A} a.
Arguments Return {A} k err.

(** The error of line 132. *)
Definition missingFile (k : string) : error :=
  errorString ("error validating package: package must contain a " +:+ k +:+ " file").

(** The map literal of lines 97-100. *)
Definition filesLit : gmap string bool :=
  {[ "fastly.toml" := false; "main.wasm" := false ]}.

Section Validate.

(** The validator's own state (a Go closure may count, remember, ...). *)
Context {HS : Type}.

(** [FileValidator]: [func(archiver.File) error]. *)
Definition FileValidator : Type := File → HS → option error * HS.

(** [filepath.Clean], from Go's standard library. *)
Variable filepath_Clean : string → string.

(** [os.Open] on the file system of the run. *)
Variable fs : string → error + Package.

(** The order in which the [n]-th executed [range] statement visits the
    keys of the map; Go leaves it unspecified. *)
Variable order : nat → list string → list string.

Record State : Type := mkState {
  hstate : HS;                 (* state of the validator *)
  files : gmap string bool;    (* the local map [files]; empty before line 97 *)
  ranges : nat;                (* number of [range] statements executed *)
  trace : list Event           (* calls made so far, oldest first *)
}.

Definition M (A : Type) : Type := State → Res A * State.

Definition ret {A} (a : A) : M A := λ st, (Next a, st).

Definition bind {A B} (m : M A) (f : A → M B) : M B :=
  λ st, match m st with
        | (Next a, st') => f a st'
        | (Return k e, st') => (Return k e, st')
        end.

(** [return err] *)
Definition fail {A} (k : Kind) (err : error) : M A := λ st, (Return k err, st).

Definition log (ev : Event) : M unit :=
  λ st, (Next tt, mkState (hstate st) (files st) (ranges st) (trace st ++ [ev])).

(** [defer d; body] *)
Definition defer {A} (d : M unit) (body : M A) : M A :=
  λ st, let '(r, st') := body st in (r, (d st').2).

Notation "'let*' x ':=' c 'in' k" := (bind c (λ x, k))
  (at level 10, x name, c at level 100, k at level 200).
Notation "c >> k" := (bind c (λ _, k))
  (at level 100, k at level 200, right associativity).

(** *** The outside world *)

(** [file, err := os.Open(name)] *)
Definition os_Open (name : string) : M (error + Package) :=
  match fs name with
  | inl err => log (EvOpen name (Some err)) >> ret (inl err)
  | inr file => log (EvOpen name None) >> ret (inr file)
  end.

(** [err = tar.Open(file, 0)] *)
Definition tar_Open (file : Package) : M (error + list ReadResult) :=
  match file with
  | NotTarGz err => log (EvTarOpen (Some err)) >> ret (inl err)
  | TarGz reads => log (EvTarOpen None) >> ret (inr reads)
  end.

(** [f, err := tar.Read()] on the rest of the stream: the result, and
    what is left of the stream. *)
Definition tar_Read (tar : list ReadResult) : M (ReadResult * list ReadResult) :=
  match tar with
  | [] => log (EvTarRead (ReadFail io_EOF)) >> ret (ReadFail io_EOF, [])
  | r :: tar' => log (EvTarRead r) >> ret (r, tar')
  end.

(** [f.Close()] *)
Definition f_Close (f : File) : M (option error) :=
  log (EvFileClose f (Close f)) >> ret (Close f).

(** [fileValidator(f)], when [fileValidator != nil]. *)
Definition callValidator (fileValidator : option FileValidator) (f : File)
  : M (option error) :=
  match fileValidator with
  | None => ret None
  | Some v =>
      λ st, let '(err, hs) := v f (hstate st) in
            (Next err,
             mkState hs (files st) (ranges st) (trace st ++ [EvValidate f err]))
  end.

(** *** The map [files] *)

(** Lines 97-100: [files := map[string]bool{...}]. *)
Definition makeFiles : M unit :=
  λ st, (Next tt, mkState (hstate st) filesLit (ranges st) (trace st)).

(** [range files]: the keys of the map, in the order of this execution
    of the statement. *)
Definition rangeFiles (s : Site) : M (list string) :=
  λ st, (Next (order (ranges st) (map_to_list (files st)).*1),
         mkState (hstate st) (files st) (S (ranges st)) (trace st ++ [EvRange s])).

(** [files[k] = true] *)
Definition setFound (k : string) : M unit :=
  λ st, (Next tt,
         mkState (hstate st) (<[k := true]> (files st)) (ranges st)
                 (trace st ++ [EvMark k])).

(** The value [files[k]] ([false] for an absent key, as in Go). *)
Definition found (k : string) : M bool :=
  λ st, (Next (default false (files st !! k)), st).

(** Lines 111-115, over the keys [ks] still to visit. *)
Fixpoint track (name : string) (ks : list string) : M unit :=
  match ks with
  | [] => ret tt
  | k :: ks' =>
      (if String.eqb k name then setFound k else ret tt) >>
      track name ks'
  end.

(** Lines 130-134, over the keys [ks] still to visit. *)
Fixpoint check (ks : list string) : M unit :=
  match ks with
  | [] => ret tt
  | k :: ks' =>
      let* b := found k in
      if negb b then fail MissingRequiredFileError (missingFile k)
      else check ks'
  end.

(** *** [validate] *)

(** Lines 102-128: the [for] loop, on the rest [tar] of the stream.  Every
    iteration starts with [tar.Read()]; the function goes by cases on the
    stream so that it recurses on what the read leaves. *)
Fixpoint stream (fileValidator : option FileValidator) (tar : list ReadResult)
  : M unit :=
  match tar with
  | [] => tar_Read [] >> ret tt                 (* io.EOF: break *)
  | r :: tar' =>
      let* _ := tar_Read (r :: tar') in
      match r with
      | ReadFail err =>
          if isEOF err then ret tt              (* break *)
          else fail ReadError (Errorf_w "error reading package" err)
      | ReadFile f =>
          (let* ks := rangeFiles Tracker in track (Name f) ks) >>
          let* verr := callValidator fileValidator f in
          match verr with
          | Some err => f_Close f >> fail ValidatorError err
          | None =>
              let* cerr := f_Close f in
              match cerr with
              | Some err => fail CloseError (Errorf_w "error closing file" err)
              | None => stream fileValidator tar'
              end
          end
      end
  end.

Definition validate (path : string) (fileValidator : option FileValidator)
  : M unit :=
  let* r := os_Open (filepath_Clean path) in
  match r with
  | inl err => fail OpenError (Errorf_w "error reading package" err)
  | inr file =>
      defer (log EvOsClose)
        (let* r := tar_Open file in
         match r with
         | inl err => fail UnarchiveError (Errorf_w "error unarchiving package" err)
         | inr tar =>
             defer (log EvTarClose)
               (makeFiles >>
                stream fileValidator tar >>
                let* ks := rangeFiles Terminal in
                check ks)
         end)
  end.

(** A call of [validate] by a caller whose validator is in state [hs]. *)
Definition call (path : string) (fileValidator : option FileValidator)
  (hs : HS) : Res unit * State :=
  validate path fileValidator (mkState hs ∅ 0 []).

End Validate.

(** The [error] that a call returned ([None] is [nil]), with its kind. *)
Definition outcome {A S} (r : Res A * S) : option (Kind * error) :=
  match r.1 with
  | Next _ => None
  | Return k err => Some (k, err)
  end.

(** ** Vocabulary of the statements *)

(** What lines 111-115 do to the map for an entry called [name]. *)
Definition observe (name : string) (m : gmap string bool) : gmap string bool :=
  if decide (is_Some (m !! name)) then <[name := true]> m else m.

(** An iteration order is admissible when every [range] visits each key
    of the map once. *)
Definition admissible (order : nat → list string → list string) : Prop :=
  ∀ n l, order n l ≡ₚ l.

(** A call that neither makes the loop return an error nor belongs to the
    terminal check. *)
Definition quiet (ev : Event) : bool :=
  match ev with
  | EvTarRead (ReadFail err) => isEOF err
  | EvValidate _ (Some _) => false
  | EvFileClose _ (Some _) => false
  | EvRange Terminal => false
  | _ => true
  end.

(** The three ways in which the loop returns an error: the kind and the
    error returned, the result of the last [tar.Read()], and the calls made
    from the failing one on. *)
Inductive Abort : Kind → error → ReadResult → list Event → Prop :=
  | AbortRead err :
      isEOF err = false →
      Abort ReadError (Errorf_w "error reading package" err) (ReadFail err)
        [EvTarRead (ReadFail err)]
  | AbortValidator f err :
      Abort ValidatorError err (ReadFile f)
        [EvValidate f (Some err); EvFileClose f (Close f)]
  | AbortClose f err :
      Close f = Some err →
      Abort CloseError (Errorf_w "error closing file" err) (ReadFile f)
        [EvFileClose f (Some err)].

(** The results of [tar.Read()] in a trace. *)
Definition readsOf (t : list Event) : list ReadResult :=
  omap (λ ev, match ev with EvTarRead r => Some r | _ => None end) t.

(** The required names. *)
Definition required : list string := ["fastly.toml"; "main.wasm"].

(** The names of the entries of a stream. *)
Definition entryNames (rs : list ReadResult) : list string :=
  omap (λ r, match r with ReadFile f => Some (Name f) | ReadFail _ => None end) rs.

(** A stream that reaches its end without error: every read gives an entry,
    and every entry closes without error. *)
Definition clean (rs : list ReadResult) : Prop :=
  Forall (λ r, match r with ReadFile f => Close f = None | ReadFail _ => False end) rs.

(** A validator that is nil, or returns nil on every entry of the stream. *)
Definition accepts {HS} (fv : option (@FileValidator HS)) (rs : list ReadResult) : Prop :=
  match fv with
  | None => True
  | Some v => ∀ f s, ReadFile f ∈ rs → (v f s).1 = None
  end.

(** The map after the entries called [ns] have gone through lines 111-115. *)
Definition observeAll (ns : list string) (m : gmap string bool) : gmap string bool :=
  foldl (λ m n, observe n m) m ns.

(** The state after one more recorded call. *)
Definition logged {HS} (ev : Event) (st : @State HS) : State :=
  mkState (hstate st) (files st) (ranges st) (trace st ++ [ev]).

(** The state after lines 111-115 for an entry called [name]. *)
Definition tracked {HS} (name : string) (st : @State HS) : State :=
  mkState (hstate st) (observe name (files st)) (S (ranges st))
    (trace st ++ EvRange Tracker ::
       if decide (is_Some (files st !! name)) then [EvMark name] else []).

(** What the validator, if there is one, returns on [f], and the state
    after its call. *)
Definition validated {HS} (fv : option FileValidator) (f : File) (st : @State HS)
  : option error * State :=
  match fv with
  | None => (None, st)
  | Some v =>
      let '(err, hs) := v f (hstate st) in
      (err, mkState hs (files st) (ranges st) (trace st ++ [EvValidate f err]))
  end.

(** The calls of one iteration, up to the validator. *)
Definition upToValidator {HS} (f : File) (st : @State HS) : list Event :=
  EvTarRead (ReadFile f) :: EvRange Tracker ::
  if decide (is_Some (files st !! Name f)) then [EvMark (Name f)] else [].

(** Lines 130-136, entered in state [st]. *)
Definition terminal {HS} (order : nat → list string → list string)
  (st : @State HS) : Res unit * State :=
  check (order (ranges st) (map_to_list (files st)).*1)
    (mkState (hstate st) (files st) (S (ranges st)) (trace st ++ [EvRange Terminal])).

(** [sub] occurs in [s]. *)
Fixpoint contains (sub s : string) : bool :=
  if String.prefix sub s then true
  else match s with
       | EmptyString => false
       | String _ s' => contains sub s'
       end.

(** The message of the error [e] names [k]. *)
Definition mentions (k : string) (e : error) : bool := contains k (Error e).

(** C1 as stated: the call fails with the missing-file error, and the
    error names exactly the required names that the stream lacks. *)
Definition names_every_missing {HS} (c : Res unit * @State HS)
  (rs : list ReadResult) : Prop :=
  ∃ e, outcome c = Some (MissingRequiredFileError, e) ∧
       ∀ k, k ∈ required → (k ∉ entryNames rs ↔ mentions k e = true).

(** ** Inputs of the examples *)

(** Two admissible orders: the order of [map_to_list], and its reverse. *)
Definition id_order : nat → list string → list string := λ _ l, l.
Definition rev_order : nat → list string → list string := λ _ l, reverse l.

(** [filepath.Clean] on the paths of the examples, which are clean. *)
Definition cleanPath : string → string := λ p, p.

(** A file system where every path opens a tar.gz with the stream [rs]. *)
Definition packageOf (rs : list ReadResult) : string → error + Package :=
  λ _, inr (TarGz rs).

(** A file system with no file: [os.Open] fails. *)
Definition noFile : string → error + Package :=
  λ name, inl (errorString ("open " +:+ name +:+ ": no such file or directory")).

(** A file system where every path opens a file that is not a gzip. *)
Definition notGzip : string → error + Package :=
  λ _, inr (NotTarGz (errorString "gzip: invalid header")).

(** An entry that closes without error. *)
Definition entry (name : string) : ReadResult := ReadFile (mkFile name None).

(** A validator that counts its calls and rejects [secret.key]. *)
Definition secretError : error := errorString "secret.key must not be packaged".
Definition rejectSecret : @FileValidator nat :=
  λ f n, (if String.eqb (Name f) "secret.key" then Some secretError else None, S n).

(** A validator that counts its calls and accepts every entry. *)
Definition acceptAll : @FileValidator nat := λ f n, (None, S n).

(** The path of the examples. *)
Definition pkg : string := "pkg/app.tar.gz".

(** Streams of the examples. *)
Definition secretKey : File := mkFile "secret.key" None.
Definition leakyKey : File := mkFile "secret.key" (Some (errorString "close failed")).
Definition stuckToml : File := mkFile "fastly.toml" (Some (errorString "close failed")).

Definition complete : list ReadResult :=
  [entry "README.md"; entry "main.wasm"; entry "fastly.toml"].
Definition onlyToml : list ReadResult := [entry "fastly.toml"].
Definition withSecret : list ReadResult :=
  [entry "fastly.toml"; ReadFile secretKey; entry "main.wasm"].
Definition withLeakySecret : list ReadResult :=
  [entry "main.wasm"; ReadFile leakyKey; entry "fastly.toml"].
Definition truncated : list ReadResult :=
  [entry "fastly.toml"; ReadFail (errorString "unexpected EOF"); entry "main.wasm"].
Definition stuck : list ReadResult :=
  [entry "main.wasm"; ReadFile stuckToml; entry "README.md"].

(** The calls made before the failing one in the examples. *)
Definition beforeSecret : list Event :=
  [EvOpen pkg None; EvTarOpen None;
   EvTarRead (entry "fastly.toml"); EvRange Tracker; EvMark "fastly.toml";
   EvValidate (mkFile "fastly.toml" None) None;
   EvFileClose (mkFile "fastly.toml" None) None;
   EvTarRead (ReadFile secretKey); EvRange Tracker].
Definition beforeLeakySecret : list Event :=
  [EvOpen pkg None; EvTarOpen None;
   EvTarRead (entry "main.wasm"); EvRange Tracker; EvMark "main.wasm";
   EvValidate (mkFile "main.wasm" None) None;
   EvFileClose (mkFile "main.wasm" None) None;
   EvTarRead (ReadFile leakyKey); EvRange Tracker].
Definition beforeTruncation : list Event :=
  [EvOpen pkg None; EvTarOpen None;
   EvTarRead (entry "fastly.toml"); EvRange Tracker; EvMark "fastly.toml";
   EvValidate (mkFile "fastly.toml" None) None;
   EvFileClose (mkFile "fastly.toml" None) None].
Definition beforeStuck : list Event :=
  [EvOpen pkg None; EvTarOpen None;
   EvTarRead (entry "main.wasm"); EvRange Tracker; EvMark "main.wasm";
   EvValidate (mkFile "main.wasm" None) None;
   EvFileClose (mkFile "main.wasm" None) None;
   EvTarRead (ReadFile stuckToml); EvRange Tracker; EvMark "fastly.toml";
   EvValidate stuckToml None].

(** A stream whose reader goes on after [io.EOF]. *)
Definition pastEOF : list ReadResult :=
  [entry "fastly.toml"; ReadFail io_EOF; entry "main.wasm"].

(** The outside of [Exec] in the examples: project names that are clean,
    relative paths below the directory [/home/dev/app]. *)
Definition baseName : string → string := λ name, name.
Definition joinPath : string → string → string := λ dir file, dir +:+ "/" +:+ file.
Definition absPath : string → error + string := λ p, inr ("/home/dev/app/" +:+ p).
Definition errReadingManifest : error := errorString "error reading package manifest".

(** ** The names of tar entries *)

(** [f.Name()] on the [archiver.File] of an entry is [Name()] of the
    [os.FileInfo] of its tar header: for a file whose header name is [h],
    Go's [path.Base h].  The three definitions below follow [path.Base]:
    an empty path gives ["."]; trailing slashes are dropped; what follows the
    last slash is kept; a path of slashes only gives ["/"]. *)
Definition isSlash (c : Ascii.ascii) : bool := String.eqb (String c EmptyString) "/".

(** [for len(path) > 0 && path[len(path)-1] == '/' { path = path[0:len(path)-1] }] *)
Fixpoint trimRightSlashes (p : string) : string :=
  match p with
  | EmptyString => EmptyString
  | String c p' =>
      match trimRightSlashes p' with
      | EmptyString => if isSlash c then EmptyString else String c EmptyString
      | q => String c q
      end
  end.

Fixpoint hasSlash (p : string) : bool :=
  match p with
  | EmptyString => false
  | String c p' => isSlash c || hasSlash p'
  end.

(** [if i := lastSlash(path); i >= 0 { path = path[i+1:] }] *)
Fixpoint afterLastSlash (p : string) : string :=
  match p with
  | EmptyString => EmptyString
  | String c p' =>
      if hasSlash p' then afterLastSlash p'
      else if isSlash c then p' else String c p'
  end.

Definition path_Base (p : string) : string :=
  if String.eqb p "" then "."
  else
    let p := afterLastSlash (trimRightSlashes p) in
    if String.eqb p "" then "/" else p.

(** The [archiver.File] that [tar.Read()] returns for a file stored under
    the header name [h], whose [Close] returns [close]. *)
Definition tarFile (h : string) (close : option error) : File :=
  mkFile (path_Base h) close.

(** A read that gives such an entry, closing without error. *)
Definition tarEntry (h : string) : ReadResult := ReadFile (tarFile h None).

(** ** The terminal check of a finished call *)

(** The keys of the map in the order in which the last [range] of a call
    that ended in state [st] has visited them. *)
Definition lastVisit {HS} (order : nat → list string → list string)
  (st : @State HS) : list string :=
  order (pred (ranges st)) (map_to_list (files st)).*1.

(** The flag of [k] is not set in [st]. *)
Definition unset {HS} (st : @State HS) (k : string) : bool :=
  negb (default false (files st !! k)).

(** ** More inputs of the examples *)

(** A file system where every path opens a gzip whose content is not a tar:
    [tar.Open] reads the gzip header only and succeeds, and the first
    [tar.Read()] fails. *)
Definition notTar : string → error + Package :=
  λ _, inr (TarGz [ReadFail (errorString "archive/tar: invalid tar header")]).

(** The archive with the entries [subdir/main.wasm] and [fastly.toml]. *)
Definition nestedArchive : list ReadResult :=
  [tarEntry "subdir/main.wasm"; tarEntry "fastly.toml"].

(** An archive with [fastly.toml] and a file that is not required. *)
Definition tomlAndReadme : list ReadResult :=
  [tarEntry "docs/README.md"; tarEntry "fastly.toml"].

(** ** What a trace shows *)

(** The entries that [tar.Read()] returned. *)
Definition filesRead (t : list Event) : list File :=
  omap (λ ev, match ev with EvTarRead (ReadFile f) => Some f | _ => None end) t.

(** The entries on which the validator was called. *)
Definition filesValidated (t : list Event) : list File :=
  omap (λ ev, match ev with EvValidate f _ => Some f | _ => None end) t.

(** An entry comes out of [tar.Read()], and goes with [f.Close()]. *)
Inductive EntryOp : Type :=
  | Opened (f : File)
  | Closed (f : File).

#[global] Instance EntryOp_eq_dec : EqDecision EntryOp.
Proof. solve_decision. Defined.

(** The reads of entries and the [Close]s of entries, in order. *)
Definition entryOps (t : list Event) : list EntryOp :=
  omap (λ ev, match ev with
              | EvTarRead (ReadFile f) => Some (Opened f)
              | EvFileClose f _ => Some (Closed f)
              | _ => None
              end) t.

(** The calls that the loop of lines 102-128 makes. *)
Definition loopCall (ev : Event) : bool :=
  match ev with
  | EvTarRead _ | EvRange Tracker | EvMark _ | EvValidate _ _ | EvFileClose _ _ => true
  | _ => false
  end.

(** The state of the validator after it has been called on [l], in order. *)
Definition hookRun {HS} (fv : option (@FileValidator HS)) (l : list File) (hs : HS) : HS :=
  match fv with
  | None => hs
  | Some v => foldl (λ s f, (v f s).2) hs l
  end.

(** The stream up to the first [io.EOF] that [tar.Read()] returns. *)
Fixpoint untilEOF (rs : list ReadResult) : list ReadResult :=
  match rs with
  | [] => []
  | ReadFail err :: rs' => if isEOF err then [] else ReadFail err :: untilEOF rs'
  | ReadFile f :: rs' => ReadFile f :: untilEOF rs'
  end.

(** ** The command (lines 28-69) *)

(** The errors that [Exec] returns: a wrapped error, or an
    [fsterr.RemediationError]. *)
Inductive cmdError : Type :=
  | PlainError (err : error)
  | RemediationError (Inner : error) (Remediation : string).

(** The remediation of lines 36 and 56. *)
Definition buildRemediation : string :=
  "Run `fastly compute build` to produce a Compute@Edge package, alternatively use the --package flag to reference a package outside of the current project.".

(** What a call of [Exec] does. *)
Record ExecRun : Type := mkExecRun {
  returned : option cmdError;                    (* the error returned; [None] is nil *)
  errLog : list (error * string);                (* ErrLog.AddWithContext(err, {"Path": ...}) *)
  written : list string;                         (* messages given to text.Success(out, ...) *)
  validation : option (Res unit * @State unit)   (* the call of [validate], if made *)
}.

Section Command.

(** [manifest.Source] and its value [manifest.SourceUndefined]. *)
Context {Source : Type} `{!EqDecision Source}.
Variable SourceUndefined : Source.

(** [fsterr.ErrReadingManifest] *)
Variable ErrReadingManifest : error.

(** [sanitize.BaseName], [filepath.Join], [filepath.Abs], [filepath.Clean] *)
Variable sanitize_BaseName : string → string.
Variable filepath_Join : string → string → string.
Variable filepath_Abs : string → error + string.
Variable filepath_Clean : string → string.

Variable fs : string → error + Package.
Variable order : nat → list string → list string.

(** [ValidateCommand], reduced to what [Exec] uses: the result of
    [c.manifest.Name()] and the flag [c.path]. *)
Record ValidateCommand : Type := mkValidateCommand {
  manifest : string * Source;
  path : string
}.

(** Lines 29-62.  [packagePath] is the flag, or else the path derived from
    the name of the project; the [return] of line 34 leaves with [inl]. *)
Definition Exec (c : ValidateCommand) : ExecRun :=
  let packagePath : cmdError + string :=
    if String.eqb (path c) "" then
      let '(projectName, source) := manifest c in
      if decide (source = SourceUndefined) then
        inl (RemediationError
               (Errorf_w "failed to read project name" ErrReadingManifest)
               buildRemediation)
      else
        inr (filepath_Join "pkg" (sanitize_BaseName projectName +:+ ".tar.gz"))
    else inr (path c) in
  match packagePath with
  | inl e => mkExecRun (Some e) [] [] None
  | inr packagePath =>
      match filepath_Abs packagePath with
      | inl err =>
          mkExecRun (Some (PlainError (Errorf_w "error reading file path" err)))
            [(err, path c)] [] None
      | inr p =>
          let v := call filepath_Clean fs order p None tt in
          match outcome v with
          | Some (_, err) =>
              mkExecRun
                (Some (RemediationError (Errorf_w "failed to validate package" err)
                         buildRemediation))
                [(err, path c)] [] (Some v)
          | None =>
              mkExecRun None [] ["Validated package " +:+ p] (Some v)
          end
      end
  end.

(** [packagePath] is the flag (line 30) or, with an empty flag and a
    project name that is defined, the path derived from it (line 39). *)
Definition resolves (c : ValidateCommand) (packagePath : string) : Prop :=
  (path c ≠ "" ∧ packagePath = path c) ∨
  (path c = "" ∧ (manifest c).2 ≠ SourceUndefined ∧
   packagePath = filepath_Join "pkg" (sanitize_BaseName (manifest c).1 +:+ ".tar.gz")).

End Command.

(** Commands of the examples; the source of a name is [true] when it is
    defined. *)
Definition fromManifest : @ValidateCommand bool := mkValidateCommand ("app", true) "".
Definition fromFlag : @ValidateCommand bool :=
  mkValidateCommand ("", false) "dist/app.tar.gz".
Definition execOn (rs : list ReadResult) (c : @ValidateCommand bool) : ExecRun :=
  Exec false errReadingManifest baseName joinPath absPath cleanPath (packageOf rs)
    id_order c.

(** ** The map of the required names *)

Lemma lookup_observe name m k :
  observe name m !! k =
  if decide (k = name) then (λ _, true) <$> m !! k else m !! k.
Proof.
  unfold observe. destruct (decide (k = name)) as [->|Hne].
  - destruct (decide (is_Some (m !! name))) as [[b Hb]|Hn].
    + by rewrite lookup_insert_eq, Hb.
    + by destruct (m !! name) as [b|]; [destruct Hn; eauto|].
  - case_decide; [|done]. by rewrite lookup_insert_ne.
Qed.

Lemma lookup_observeAll ns m k :
  observeAll ns m !! k = (λ b, b || bool_decide (k ∈ ns)) <$> m !! k.
Proof.
  unfold observeAll. revert m. induction ns as [|n ns IH]; intros m; cbn [foldl].
  - destruct (m !! k) as [b|]; [|done]. cbn.
    rewrite bool_decide_eq_false_2 by apply not_elem_of_nil.
    by rewrite orb_false_r.
  - rewrite IH, lookup_observe. destruct (decide (k = n)) as [->|Hne].
    + destruct (m !! n) as [b|]; [|done]. cbn.
      rewrite (bool_decide_eq_true_2 (n ∈ n :: ns)) by apply list_elem_of_here.
      by rewrite orb_true_r.
    + destruct (m !! k) as [b|]; [|done]. cbn. do 2 f_equal.
      apply bool_decide_ext. rewrite elem_of_cons. tauto.
Qed.

Lemma lookup_filesLit k :
  filesLit !! k = if decide (k ∈ required) then Some false else None.
Proof.
  unfold filesLit, required.
  destruct (decide (k = "fastly.toml")) as [->|H1]; [done|].
  destruct (decide (k = "main.wasm")) as [->|H2]; [done|].
  rewrite lookup_insert_ne, lookup_singleton_ne by done.
  rewrite decide_False; [done|].
  rewrite !elem_of_cons, elem_of_nil. tauto.
Qed.

(** The flag of a required name after the entries [ns]. *)
Lemma lookup_flags ns k :
  observeAll ns filesLit !! k =
  if decide (k ∈ required) then Some (bool_decide (k ∈ ns)) else None.
Proof. rewrite lookup_observeAll, lookup_filesLit. by case_decide. Qed.

(** ** Names and traces *)

Lemma app_cons_string a (s1 s2 : string) : String a s1 +:+ s2 = String a (s1 +:+ s2).
Proof. reflexivity. Qed.

Lemma hasSlash_app d s : hasSlash s = true → hasSlash (d +:+ s) = true.
Proof.
  intros Hs. induction d as [|c d IH]; [done|].
  rewrite app_cons_string. cbn [hasSlash]. rewrite IH. apply orb_true_r.
Qed.

Lemma afterLastSlash_app d s :
  hasSlash s = true → afterLastSlash (d +:+ s) = afterLastSlash s.
Proof.
  intros Hs. induction d as [|c d IH]; [done|].
  rewrite app_cons_string. cbn [afterLastSlash]. by rewrite hasSlash_app.
Qed.

Lemma trimRightSlashes_app d s :
  trimRightSlashes s ≠ "" → trimRightSlashes (d +:+ s) = d +:+ trimRightSlashes s.
Proof.
  intros Hs. induction d as [|c d IH]; [done|].
  rewrite !app_cons_string. cbn [trimRightSlashes]. rewrite IH.
  destruct (d +:+ trimRightSlashes s) as [|a q] eqn:Heq; [|done].
  destruct d as [|c' d]; [done|]. by rewrite app_cons_string in Heq.
Qed.

(** The name of an entry stored below a directory is its last element. *)
Lemma path_Base_nested dir : path_Base (dir +:+ "/main.wasm") = "main.wasm".
Proof.
  unfold path_Base.
  assert (Hne : String.eqb (dir +:+ "/main.wasm") "" = false) by (by destruct dir).
  rewrite Hne. cbv zeta.
  rewrite (trimRightSlashes_app dir "/main.wasm") by done.
  change (trimRightSlashes "/main.wasm") with "/main.wasm".
  by rewrite afterLastSlash_app.
Qed.

Lemma entryNames_app rs1 rs2 :
  entryNames (rs1 ++ rs2) = entryNames rs1 ++ entryNames rs2.
Proof. apply omap_app. Qed.

Lemma readsOf_app t1 t2 : readsOf (t1 ++ t2) = readsOf t1 ++ readsOf t2.
Proof. apply omap_app. Qed.

(** Splitting a trace at a call that is not quiet, behind a quiet prefix. *)
Lemma split_quiet (l r t1 t2 : list Event) x :
  Forall (λ ev, quiet ev = true) l → quiet x = false →
  l ++ r = t1 ++ x :: t2 →
  ∃ t, t1 = l ++ t ∧ r = t ++ x :: t2.
Proof.
  intros Hl Hx. revert t1. induction Hl as [|a l Ha Hl IH]; intros t1 Heq.
  - by exists t1.
  - destruct t1 as [|b t1]; simplify_eq/=; [congruence|].
    destruct (IH _ H0) as (t & -> & ->). by exists t.
Qed.

Lemma quiet_not_terminal (t : list Event) :
  Forall (λ ev, quiet ev = true) t → EvRange Terminal ∉ t.
Proof. intros Hq Hin. by apply (proj1 (Forall_forall _ _) Hq) in Hin. Qed.

(** Where a given call sits in a list of calls that is known. *)
Ltac locate :=
  repeat match goal with
    | H : [] = ?t ++ _ :: _ |- _ => by destruct t
    | H : _ :: _ = ?t ++ _ :: _ |- _ => destruct t; simplify_eq/=
    end.

(** ** The loop and the call *)

Section Call.
Context {HS : Type}.
Variable order : nat → list string → list string.
Hypothesis order_ok : admissible order.

Implicit Types (st : @State HS) (m : gmap string bool).
Implicit Types (fv : option (@FileValidator HS)) (hs : HS).

Lemma track_spec name ks st :
  NoDup ks →
  track name ks st
  = (Next tt, if decide (name ∈ ks) then (setFound name st).2 else st).
Proof.
  revert st. induction ks as [|k ks IH]; intros st Hnd.
  - cbn [track]. rewrite decide_False; [done | apply not_elem_of_nil].
  - apply NoDup_cons in Hnd as [Hk Hnd]. cbn [track]. unfold bind at 1.
    destruct (String.eqb_spec k name) as [->|Hne].
    + cbn [setFound ret]. rewrite (IH _ Hnd). rewrite (decide_False _ _ Hk).
      rewrite decide_True; [done | apply list_elem_of_here].
    + cbn [setFound ret]. rewrite (IH _ Hnd).
      destruct (decide (name ∈ ks)) as [Hin|Hin].
      * rewrite decide_True; [done | by apply list_elem_of_further].
      * rewrite decide_False; [done|].
        rewrite elem_of_cons. intros [->|?]; done.
Qed.

Lemma keys_NoDup n m : NoDup (order n (map_to_list m).*1).
Proof. rewrite (order_ok n _). apply NoDup_fst_map_to_list. Qed.

Lemma elem_of_keys n m k : k ∈ order n (map_to_list m).*1 ↔ is_Some (m !! k).
Proof.
  rewrite (order_ok n _), list_elem_of_fmap. split.
  - intros [[k' b] [-> Hin]]. apply elem_of_map_to_list in Hin. by exists b.
  - intros [b Hb]. exists (k, b). split; [done|]. by apply elem_of_map_to_list.
Qed.

Lemma tracker_spec name st :
  bind (rangeFiles order Tracker) (track name) st = (Next tt, tracked name st).
Proof.
  unfold bind, rangeFiles. rewrite track_spec by apply keys_NoDup.
  unfold tracked, observe. f_equal.
  destruct (decide (is_Some (files st !! name))) as [Hs|Hs].
  - rewrite decide_True by (by apply elem_of_keys). simpl.
    by rewrite <- app_assoc.
  - rewrite decide_False by (by rewrite elem_of_keys). done.
Qed.

Lemma callValidator_spec fv f st :
  callValidator fv f st = (Next (validated fv f st).1, (validated fv f st).2).
Proof.
  destruct fv as [v|]; simpl; [|done]. by destruct (v f (hstate st)).
Qed.

(** One iteration of the loop on an entry [f]. *)
Lemma stream_file fv f tar st :
  stream order fv (ReadFile f :: tar) st =
  let st1 := tracked (Name f) (logged (EvTarRead (ReadFile f)) st) in
  let st3 := logged (EvFileClose f (Close f)) (validated fv f st1).2 in
  match (validated fv f st1).1, Close f with
  | Some err, _ => (Return ValidatorError err, st3)
  | None, Some err => (Return CloseError (Errorf_w "error closing file" err), st3)
  | None, None => stream order fv tar st3
  end.
Proof.
  cbn [stream tar_Read]. unfold bind at 1 2. cbn [log ret].
  unfold bind at 1. rewrite tracker_spec.
  unfold bind at 1. rewrite callValidator_spec. cbn [fst snd].
  fold (logged (EvTarRead (ReadFile f)) st).
  destruct (validated fv f _) as [[err|] st2]; cbn [fst snd].
  - unfold bind, f_Close, log, fail, ret, logged. by destruct (Close f).
  - unfold bind at 1. unfold f_Close, bind, log, ret, fail, logged.
    by destruct (Close f).
Qed.

Lemma stream_fail fv err tar st :
  stream order fv (ReadFail err :: tar) st =
  (if isEOF err then Next tt
   else Return ReadError (Errorf_w "error reading package" err),
   logged (EvTarRead (ReadFail err)) st).
Proof.
  cbn [stream tar_Read]. unfold bind, log, ret, fail, logged.
  by destruct (isEOF err).
Qed.

Lemma stream_nil fv st :
  stream order fv [] st = (Next tt, logged (EvTarRead (ReadFail io_EOF)) st).
Proof. done. Qed.

(** Lines 130-134 report the first key, in the order of the visit, whose
    flag is not set. *)
Lemma check_spec ks st :
  check ks st =
  (match List.find (λ k, negb (default false (files st !! k))) ks with
   | Some k => Return MissingRequiredFileError (missingFile k)
   | None => Next tt
   end, st).
Proof.
  induction ks as [|k ks IH]; [done|].
  cbn [check List.find]. unfold bind, found, fail.
  by destruct (negb _).
Qed.

Lemma trace_check ks st : trace (check ks st).2 = trace st.
Proof. by rewrite check_spec. Qed.

Lemma trace_validated fv f st :
  trace (validated fv f st).2 =
  trace st ++ match fv with
              | None => []
              | Some _ => [EvValidate f (validated fv f st).1]
              end.
Proof.
  destruct fv as [v|]; simpl; [|by rewrite app_nil_r].
  by destruct (v f (hstate st)).
Qed.

Lemma validated_nil f st : (validated None f st).1 = None.
Proof. done. Qed.

Lemma files_validated fv f st : files (validated fv f st).2 = files st.
Proof. destruct fv as [v|]; [|done]. cbn. by destruct (v f (hstate st)). Qed.

Lemma ranges_validated fv f st : ranges (validated fv f st).2 = ranges st.
Proof. destruct fv as [v|]; [|done]. cbn. by destruct (v f (hstate st)). Qed.

Lemma validated_accepts fv f rs st :
  accepts fv rs → ReadFile f ∈ rs → (validated fv f st).1 = None.
Proof.
  destruct fv as [v|]; [|done]. cbn. intros Hv Hf.
  specialize (Hv f (hstate st) Hf). by destruct (v f (hstate st)).
Qed.

Lemma accepts_tail fv r rs : accepts fv (r :: rs) → accepts fv rs.
Proof.
  destruct fv as [v|]; [|done]. cbn. intros Hv f s Hf.
  apply Hv. by apply list_elem_of_further.
Qed.

Lemma quiet_upToValidator f st : Forall (λ ev, quiet ev = true) (upToValidator f st).
Proof. unfold upToValidator. case_decide; repeat constructor. Qed.

Lemma readsOf_upToValidator f st : readsOf (upToValidator f st) = [ReadFile f].
Proof. unfold upToValidator. by case_decide. Qed.

Lemma stream_shape fv rs :
  ∀ st, ∃ d,
    trace (stream order fv rs st).2 = trace st ++ d ∧
    match (stream order fv rs st).1 with
    | Next _ => Forall (λ ev, quiet ev = true) d
    | Return k e =>
        ∃ d0 tl r n,
          d = d0 ++ tl ∧ Forall (λ ev, quiet ev = true) d0 ∧
          Abort k e r tl ∧ rs !! n = Some r ∧ length (readsOf d) = S n
    end.
Proof.
  induction rs as [|[f|err] rs IH]; intros st.
  - rewrite stream_nil. eexists. split; [done|]. by repeat constructor.
  - rewrite stream_file. cbv zeta.
    set (st1 := tracked _ _).
    assert (Ht1 : trace st1 = trace st ++ upToValidator f st).
    { unfold st1, tracked, logged, upToValidator. cbn. by rewrite <- app_assoc. }
    pose proof (trace_validated fv f st1) as Ht2.
    destruct (validated fv f st1) as [verr st2] eqn:Ev. cbn [fst snd] in *.
    destruct verr as [verr|].
    + (* the validator rejects [f] *)
      destruct fv as [v|]; [|done].
      exists (upToValidator f st ++ [EvValidate f (Some verr); EvFileClose f (Close f)]).
      cbn [fst snd logged trace]. rewrite Ht2, Ht1, <- !app_assoc. split; [done|].
      exists (upToValidator f st), [EvValidate f (Some verr); EvFileClose f (Close f)],
        (ReadFile f), 0.
      split_and!; [done|apply quiet_upToValidator|constructor|done|].
      by rewrite readsOf_app, readsOf_upToValidator.
    + set (vd := match fv with None => [] | Some _ => [EvValidate f None] end) in Ht2.
      assert (Hvd : Forall (λ ev, quiet ev = true) (upToValidator f st ++ vd)).
      { apply Forall_app. split; [apply quiet_upToValidator|].
        unfold vd. destruct fv; repeat constructor. }
      assert (Hrd : readsOf (upToValidator f st ++ vd) = [ReadFile f]).
      { rewrite readsOf_app, readsOf_upToValidator. unfold vd. by destruct fv. }
      destruct (Close f) as [cerr|] eqn:Ec.
      * (* closing [f] fails *)
        exists ((upToValidator f st ++ vd) ++ [EvFileClose f (Some cerr)]).
        cbn [fst snd logged trace]. rewrite Ht2, Ht1, <- !app_assoc. split; [done|].
        exists (upToValidator f st ++ vd), [EvFileClose f (Some cerr)], (ReadFile f), 0.
        split_and!; [by rewrite <- app_assoc|done|by constructor|done|].
        by rewrite app_assoc, readsOf_app, Hrd.
      * destruct (IH (logged (EvFileClose f None) st2)) as (d & Hd & Hs).
        exists ((upToValidator f st ++ vd) ++ EvFileClose f None :: d).
        split.
        { rewrite Hd. cbn [fst snd logged trace]. rewrite Ht2, Ht1, <- !app_assoc. done. }
        destruct (stream order fv rs _) as [[[]|k e] st'']; cbn [fst] in *.
        -- apply Forall_app. split; [done|]. by constructor.
        -- destruct Hs as (d0 & tl & r & n & -> & Hq & Ha & Hn & Hl).
           exists ((upToValidator f st ++ vd) ++ EvFileClose f None :: d0), tl, r, (S n).
           split_and!; [by rewrite <- !app_assoc| |done|done|].
           ++ apply Forall_app. split; [done|]. by constructor.
           ++ rewrite readsOf_app, Hrd. cbn [readsOf omap list_omap]. cbn [app length]. by f_equal.
  - rewrite stream_fail. eexists. split; [done|]. cbn [fst].
    destruct (isEOF err) eqn:Ee.
    + repeat constructor. done.
    + exists [], [EvTarRead (ReadFail err)], (ReadFail err), 0.
      split_and!; [done|constructor|by constructor|done|done].
Qed.

(** On a clean stream the loop, when it reaches the end, has marked
    exactly the names it has seen. *)
Lemma stream_files fv rs :
  clean rs → ∀ st,
  (stream order fv rs st).1 = Next tt →
  files (stream order fv rs st).2 = observeAll (entryNames rs) (files st).
Proof.
  induction 1 as [|[f|err] rs Hf Hrs IH]; intros st; [done| |done].
  rewrite stream_file. cbv zeta. rewrite Hf.
  destruct (validated fv f _) as [[verr|] st2] eqn:Ev; cbn [fst snd]; [done|].
  intros Hnext. rewrite (IH _ Hnext). cbn [logged files].
  replace (files st2) with (files (validated fv f
    (tracked (Name f) (logged (EvTarRead (ReadFile f)) st))).2) by by rewrite Ev.
  by rewrite files_validated.
Qed.

(** On a clean stream whose entries the validator accepts, the loop
    reaches the end. *)
Lemma stream_next fv rs :
  clean rs → accepts fv rs → ∀ st, (stream order fv rs st).1 = Next tt.
Proof.
  induction 1 as [|[f|err] rs Hf Hrs IH]; intros Hv st; [done| |done].
  rewrite stream_file. cbv zeta. rewrite Hf.
  rewrite (validated_accepts _ _ _ _ Hv) by apply list_elem_of_here.
  apply IH. by eapply accepts_tail.
Qed.


Lemma terminal_spec st ns :
  files st = observeAll ns filesLit →
  match (terminal order st).1 with
  | Next _ => ∀ k, k ∈ required → k ∈ ns
  | Return kind e =>
      ∃ k, k ∈ required ∧ (k ∉ ns) ∧
           kind = MissingRequiredFileError ∧ e = missingFile k
  end.
Proof.
  intros Hfiles. unfold terminal. rewrite check_spec. cbn [fst files].
  destruct (List.find _ _) as [k|] eqn:Efind.
  - apply find_some in Efind as [Hin Hflag].
    apply list_elem_of_In, elem_of_keys in Hin.
    rewrite Hfiles, lookup_flags in Hin, Hflag.
    destruct (decide (k ∈ required)); [|by destruct Hin].
    exists k. split_and!; [done| |done|done].
    cbn in Hflag. apply negb_true_iff, bool_decide_eq_false in Hflag. done.
  - intros k Hk.
    assert (Hin : k ∈ order (ranges st) (map_to_list (files st)).*1).
    { apply elem_of_keys. rewrite Hfiles, lookup_flags, decide_True by done. eauto. }
    apply list_elem_of_In in Hin.
    apply (find_none _ _ Efind) in Hin.
    rewrite Hfiles, lookup_flags, decide_True in Hin by done.
    cbn in Hin. apply negb_false_iff, bool_decide_eq_true in Hin. done.
Qed.

(** *** The whole call *)

Variable filepath_Clean : string → string.
Variable fs : string → error + Package.

Lemma call_eq path fv hs :
  call filepath_Clean fs order path fv hs =
  let p := filepath_Clean path in
  match fs p with
  | inl err =>
      (Return OpenError (Errorf_w "error reading package" err),
       mkState hs ∅ 0 [EvOpen p (Some err)])
  | inr (NotTarGz err) =>
      (Return UnarchiveError (Errorf_w "error unarchiving package" err),
       mkState hs ∅ 0 [EvOpen p None; EvTarOpen (Some err); EvOsClose])
  | inr (TarGz rs) =>
      let r :=
        match stream order fv rs (mkState hs filesLit 0 [EvOpen p None; EvTarOpen None]) with
        | (Next _, st) => terminal order st
        | (Return k e, st) => (Return k e, st)
        end in
      (r.1, logged EvOsClose (logged EvTarClose r.2))
  end.
Proof.
  unfold call, validate, os_Open. cbv zeta.
  destruct (fs (filepath_Clean path)) as [err|[err|rs]]; [done|done|].
  unfold bind at 1 2. cbn [log ret]. unfold defer at 1.
  unfold bind at 1, tar_Open. unfold bind at 1. cbn [log ret].
  unfold defer at 1. unfold bind at 1. cbn [makeFiles]. unfold bind at 1.
  cbn [app trace hstate files ranges].
  fold filesLit.
  destruct (stream order fv rs _) as [[[]|k e] st]; [|done].
  unfold terminal, bind at 1, rangeFiles.
  by destruct (check _ _).
Qed.

(** The trace of a call: a quiet part, then either nothing more than the
    release of what was opened, or the terminal check, or one of the three
    aborts of the loop. *)
Lemma call_shape path fv hs :
  let c := call filepath_Clean fs order path fv hs in
  ∃ l r,
    trace c.2 = l ++ r ∧ Forall (λ ev, quiet ev = true) l ∧
    (r = [] ∨ r = [EvOsClose] ∨ r = [EvRange Terminal; EvTarClose; EvOsClose] ∨
     ∃ rs k e rd tl n,
       fs (filepath_Clean path) = inr (TarGz rs) ∧
       outcome c = Some (k, e) ∧ Abort k e rd tl ∧
       r = tl ++ [EvTarClose; EvOsClose] ∧
       rs !! n = Some rd ∧ length (readsOf (l ++ tl)) = S n).
Proof.
  cbv zeta. rewrite call_eq. cbv zeta.
  destruct (fs (filepath_Clean path)) as [err|[err|rs]] eqn:Efs.
  - eexists _, []. rewrite app_nil_r. split_and!; [done|by repeat constructor|by left].
  - exists [EvOpen (filepath_Clean path) None; EvTarOpen (Some err)], [EvOsClose].
    split_and!; [done|by repeat constructor|by right; left].
  - set (st0 := mkState hs filesLit 0 _).
    destruct (stream_shape fv rs st0) as (d & Hd & Hs).
    destruct (stream order fv rs st0) as [[[]|k e] st]; cbn [fst snd] in *.
    + exists (trace st0 ++ d), [EvRange Terminal; EvTarClose; EvOsClose].
      split_and!.
      * unfold terminal. cbn [logged trace]. rewrite trace_check. cbn [trace].
        rewrite Hd. by rewrite <- !app_assoc.
      * apply Forall_app. split; [by repeat constructor|done].
      * by right; right; left.
    + destruct Hs as (d0 & tl & rd & n & -> & Hq & Ha & Hn & Hl).
      exists (trace st0 ++ d0), (tl ++ [EvTarClose; EvOsClose]).
      split_and!.
      * cbn [logged trace]. rewrite Hd. by rewrite <- !app_assoc.
      * apply Forall_app. split; [by repeat constructor|done].
      * right; right; right. exists rs, k, e, rd, tl, n.
        split_and!; done.
Qed.

(** A call that is not quiet and is not the terminal check is the first
    call of an abort of the loop. *)
Lemma call_abort path fv hs t1 x t2 :
  let c := call filepath_Clean fs order path fv hs in
  trace c.2 = t1 ++ x :: t2 → quiet x = false → x ≠ EvRange Terminal →
  ∃ l t rs k e rd tl n,
    t1 = l ++ t ∧ Forall (λ ev, quiet ev = true) l ∧
    tl ++ [EvTarClose; EvOsClose] = t ++ x :: t2 ∧
    fs (filepath_Clean path) = inr (TarGz rs) ∧
    outcome c = Some (k, e) ∧ Abort k e rd tl ∧
    rs !! n = Some rd ∧ length (readsOf (l ++ tl)) = S n.
Proof.
  cbv zeta. intros Htr Hx Hterm.
  destruct (call_shape path fv hs) as (l & r & Hlr & Hq & Hr).
  rewrite Htr in Hlr. symmetry in Hlr.
  apply split_quiet in Hlr as (t & -> & Hr'); [|done|done].
  destruct Hr as [->|[->|[->|(rs & k & e & rd & tl & n & Hfs & Ho & Ha & -> & Hn & Hl)]]].
  - locate.
  - locate.
  - locate.
  - by exists l, t, rs, k, e, rd, tl, n.
Qed.

(** A call on a clean stream accepted by the validator ends in the
    terminal check, with the flags of the names seen. *)
Lemma call_clean path fv hs rs :
  fs (filepath_Clean path) = inr (TarGz rs) → clean rs → accepts fv rs →
  ∃ st, files st = observeAll (entryNames rs) filesLit ∧
        outcome (call filepath_Clean fs order path fv hs) = outcome (terminal order st).
Proof.
  intros Hfs Hclean Hacc. rewrite call_eq. cbv zeta. rewrite Hfs.
  set (st0 := mkState hs filesLit 0 _).
  pose proof (stream_next fv rs Hclean Hacc st0) as Hnext.
  pose proof (stream_files fv rs Hclean st0 Hnext) as Hfiles.
  destruct (stream order fv rs st0) as [[[]|k e] st]; cbn [fst snd] in *; [|done].
  by exists st.
Qed.

(** C6, as amended. If [os.Open] fails the call returns its error wrapped
    as "error reading package"; if [tar.Open] fails (it reads the gzip
    header) the call returns its error wrapped as "error unarchiving
    package"; if the gzip holds no tar, [tar.Open] succeeds, the first
    [tar.Read()] fails and the call returns that error wrapped as "error
    reading package".  In the three cases no key of the map is marked, and
    the only calls made are those listed. *)
Theorem open_errors_mark_nothing path fv hs :
  let c := call filepath_Clean fs order path fv hs in
  let p := filepath_Clean path in
  match fs p with
  | inl err =>
      outcome c = Some (OpenError, Errorf_w "error reading package" err) ∧
      trace c.2 = [EvOpen p (Some err)] ∧
      (∀ k, files c.2 !! k ≠ Some true)
  | inr (NotTarGz err) =>
      outcome c = Some (UnarchiveError, Errorf_w "error unarchiving package" err) ∧
      trace c.2 = [EvOpen p None; EvTarOpen (Some err); EvOsClose] ∧
      (∀ k, files c.2 !! k ≠ Some true)
  | inr (TarGz rs) =>
      ∀ err rest, rs = ReadFail err :: rest → isEOF err = false →
        outcome c = Some (ReadError, Errorf_w "error reading package" err) ∧
        trace c.2 = [EvOpen p None; EvTarOpen None; EvTarRead (ReadFail err);
                     EvTarClose; EvOsClose] ∧
        (∀ k, files c.2 !! k ≠ Some true)
  end.
Proof.
  cbv zeta. rewrite call_eq. cbv zeta.
  destruct (fs (filepath_Clean path)) as [err|[err|rs]].
  - split_and!; [done|done|]. intros k. cbn. by rewrite lookup_empty.
  - split_and!; [done|done|]. intros k. cbn. by rewrite lookup_empty.
  - intros err rest -> Herr. rewrite stream_fail, Herr. cbn [fst snd].
    split_and!; [done|done|]. intros k. cbn [logged files].
    rewrite lookup_filesLit. by case_decide.
Qed.

(** C2. An archive that streams without error and has entries called
    [fastly.toml] and [main.wasm], among any others and in any order,
    validates without error when no validator is given. *)
Theorem both_present_succeeds path hs rs :
  fs (filepath_Clean path) = inr (TarGz rs) →
  clean rs →
  "fastly.toml" ∈ entryNames rs →
  "main.wasm" ∈ entryNames rs →
  outcome (call filepath_Clean fs order path None hs) = None.
Proof.
  intros Hfs Hclean Htoml Hwasm.
  destruct (call_clean path None hs rs Hfs Hclean I) as (st & Hfiles & ->).
  pose proof (terminal_spec st _ Hfiles) as Hterm. unfold outcome.
  destruct (terminal order st).1 as [[]|kind e]; [done|].
  destruct Hterm as (k & Hk & Hnk & _). exfalso. apply Hnk.
  unfold required in Hk. rewrite !elem_of_cons, elem_of_nil in Hk.
  by destruct Hk as [->|[->|[]]].
Qed.

(** A call on a clean stream accepted by the validator: the state in
    which it enters the terminal check, and what the check leaves. *)
Lemma call_clean_state path fv hs rs :
  fs (filepath_Clean path) = inr (TarGz rs) → clean rs → accepts fv rs →
  ∃ st, files st = observeAll (entryNames rs) filesLit ∧
        let c := call filepath_Clean fs order path fv hs in
        c.1 = (terminal order st).1 ∧ files c.2 = files st ∧
        ranges c.2 = S (ranges st).
Proof.
  intros Hfs Hclean Hacc. rewrite call_eq. cbv zeta. rewrite Hfs.
  set (st0 := mkState hs filesLit 0 _).
  pose proof (stream_next fv rs Hclean Hacc st0) as Hnext.
  pose proof (stream_files fv rs Hclean st0 Hnext) as Hfiles.
  destruct (stream order fv rs st0) as [[[]|k e] st]; cbn [fst snd] in *; [|done].
  exists st. split; [done|]. unfold terminal. by rewrite check_spec.
Qed.

(** C1, as amended. An archive that streams without error, under a
    validator that is nil or accepts every entry, and that lacks at least
    one required name, fails with the missing-file error for one required
    name that is missing: the first key, in the order in which the terminal
    [range] visits the map, whose flag is not set.  So with exactly one name
    missing it is that name. *)
Theorem missing_required_reports_one path fv hs rs :
  fs (filepath_Clean path) = inr (TarGz rs) →
  clean rs → accepts fv rs →
  (∃ k, k ∈ required ∧ k ∉ entryNames rs) →
  let c := call filepath_Clean fs order path fv hs in
  ∃ k, k ∈ required ∧ (k ∉ entryNames rs) ∧
       outcome c = Some (MissingRequiredFileError, missingFile k) ∧
       List.find (unset c.2) (lastVisit order c.2) = Some k.
Proof.
  intros Hfs Hclean Hacc (k0 & Hk0 & Hnk0). cbv zeta.
  destruct (call_clean_state path fv hs rs Hfs Hclean Hacc) as (st & Hfiles & Hc).
  cbv zeta in Hc. destruct Hc as (Hc1 & Hcf & Hcr).
  unfold outcome, lastVisit, unset. rewrite Hc1, Hcf, Hcr. cbn [pred].
  unfold terminal. rewrite check_spec. cbn [fst files].
  destruct (List.find _ _) as [k|] eqn:Efind.
  - exists k. pose proof Efind as Hfound.
    apply find_some in Efind as [Hin Hflag].
    apply list_elem_of_In, elem_of_keys in Hin.
    rewrite Hfiles, lookup_flags in Hin, Hflag.
    destruct (decide (k ∈ required)); [|by destruct Hin].
    split_and!; [done| |done|done].
    cbn in Hflag. by apply negb_true_iff, bool_decide_eq_false in Hflag.
  - exfalso.
    assert (Hin : k0 ∈ order (ranges st) (map_to_list (files st)).*1).
    { apply elem_of_keys. rewrite Hfiles, lookup_flags, decide_True by done. eauto. }
    apply list_elem_of_In in Hin. apply (find_none _ _ Efind) in Hin.
    rewrite Hfiles, lookup_flags, decide_True in Hin by done.
    cbn in Hin. by apply negb_false_iff, bool_decide_eq_true in Hin.
Qed.

(** C4, as amended. A required name is compared, as a whole string, with
    [f.Name()], which is the last element of the path under which the entry
    is stored.  In an archive that streams without error and has an entry
    whose [f.Name()] is [fastly.toml], the call succeeds exactly when some
    entry has the [f.Name()] [main.wasm]; an entry stored as
    [dir/main.wasm] is such an entry, so with it the call succeeds; with no
    such entry the call fails with the missing-file error for [main.wasm]. *)
Theorem base_name_is_compared path fv hs rs :
  fs (filepath_Clean path) = inr (TarGz rs) →
  clean rs → accepts fv rs →
  "fastly.toml" ∈ entryNames rs →
  let c := call filepath_Clean fs order path fv hs in
  (outcome c = None ↔ "main.wasm" ∈ entryNames rs) ∧
  (∀ dir close, ReadFile (tarFile (dir +:+ "/main.wasm") close) ∈ rs → outcome c = None) ∧
  ("main.wasm" ∉ entryNames rs →
   outcome c = Some (MissingRequiredFileError, missingFile "main.wasm")).
Proof.
  intros Hfs Hclean Hacc Htoml. cbv zeta.
  destruct (call_clean path fv hs _ Hfs Hclean Hacc) as (st & Hfiles & ->).
  pose proof (terminal_spec st _ Hfiles) as Hterm. unfold outcome.
  assert (Hiff : match (terminal order st).1 with
                 | Next _ => None
                 | Return k err => Some (k, err)
                 end = None ↔ "main.wasm" ∈ entryNames rs).
  { destruct (terminal order st).1 as [[]|kind e].
    - split; [|done]. intros _. apply Hterm. unfold required.
      apply list_elem_of_further, list_elem_of_here.
    - split; [done|]. intros Hwasm. exfalso.
      destruct Hterm as (k & Hk & Hnk & _). apply Hnk.
      unfold required in Hk. rewrite !elem_of_cons, elem_of_nil in Hk.
      by destruct Hk as [->|[->|[]]]. }
  split_and!; [done| |].
  - intros dir close Hin. apply Hiff. apply list_elem_of_omap.
    exists (ReadFile (tarFile (dir +:+ "/main.wasm") close)). split; [done|].
    cbn. by rewrite path_Base_nested.
  - intros Hwasm. destruct (terminal order st).1 as [[]|kind e].
    + by destruct Hwasm; apply Hiff.
    + destruct Hterm as (k & Hk & Hnk & -> & ->).
      unfold required in Hk. rewrite !elem_of_cons, elem_of_nil in Hk.
      by destruct Hk as [->|[->|[]]].
Qed.

(** C3. If the validator is called on an entry [f] and returns an error,
    the call returns that very error; after the validator's call there is
    the [Close] of [f], then the deferred releases, and nothing else: no
    further [tar.Read()] and no check of the required names.  [f] is the
    entry of the stream at index [k] (the [k+1]-th entry), where [k+1]
    reads had been made when the validator was called, and the whole call
    makes [k+1] reads. *)
Theorem validator_error_aborts path fv hs rs t1 f err t2 :
  let c := call filepath_Clean fs order path fv hs in
  fs (filepath_Clean path) = inr (TarGz rs) →
  trace c.2 = t1 ++ EvValidate f (Some err) :: t2 →
  outcome c = Some (ValidatorError, err) ∧
  t2 = [EvFileClose f (Close f); EvTarClose; EvOsClose] ∧
  ∃ k, rs !! k = Some (ReadFile f) ∧
       length (readsOf t1) = S k ∧ length (readsOf (trace c.2)) = S k.
Proof.
  cbv zeta. intros Hfs Htr.
  destruct (call_abort _ _ _ _ _ _ Htr) as
    (l & t & rs' & k & e & rd & tl & n & -> & Hq & Ht & Hfs' & Ho & Ha & Hn & Hl);
    [done|done|].
  rewrite Hfs in Hfs'. simplify_eq. rewrite Htr.
  inversion Ha; subst; cbn [app] in Ht; locate.
  split_and!; [done|done|]. exists n. split; [done|].
  rewrite !readsOf_app in *. cbn in *. rewrite !app_nil_r in *. done.
Qed.

(** C5. If a [tar.Read()] of the call returns an error other than
    [io.EOF], the call returns that error wrapped as "error reading
    package"; after the failed read only the deferred releases follow, and
    the check of the required names is not in the trace at all, so the
    outcome is never the missing-file error. *)
Theorem read_error_aborts path fv hs t1 err t2 :
  let c := call filepath_Clean fs order path fv hs in
  trace c.2 = t1 ++ EvTarRead (ReadFail err) :: t2 →
  isEOF err = false →
  outcome c = Some (ReadError, Errorf_w "error reading package" err) ∧
  t2 = [EvTarClose; EvOsClose] ∧
  (EvRange Terminal ∉ trace c.2) ∧
  (∀ e, outcome c ≠ Some (MissingRequiredFileError, e)).
Proof.
  cbv zeta. intros Htr Herr.
  destruct (call_abort _ _ _ _ _ _ Htr) as
    (l & t & rs & k & e & rd & tl & n & -> & Hq & Ht & Hfs & Ho & Ha & Hn & Hl);
    [done|done|].
  rewrite Htr, Ho.
  inversion Ha; subst; cbn [app] in Ht; locate.
  split_and!; [done|done| |done].
  rewrite !elem_of_app. intros [[Hin|Hin]|Hin].
  - by apply quiet_not_terminal in Hin.
  - by apply elem_of_nil in Hin.
  - repeat (apply elem_of_cons in Hin as [?|Hin]; [done|]).
    by apply elem_of_nil in Hin.
Qed.

(** C9. If the [Close] of an entry fails, for an entry that the validator
    did not reject (the [Close] of line 124), the call returns that error
    wrapped as "error closing file"; after the failed [Close] only the
    deferred releases follow: no further read, no check of the required
    names. *)
Theorem close_error_aborts path fv hs t1 f cerr t2 :
  let c := call filepath_Clean fs order path fv hs in
  trace c.2 = t1 ++ EvFileClose f (Some cerr) :: t2 →
  (∀ verr, last t1 ≠ Some (EvValidate f (Some verr))) →
  outcome c = Some (CloseError, Errorf_w "error closing file" cerr) ∧
  t2 = [EvTarClose; EvOsClose] ∧
  EvRange Terminal ∉ trace c.2.
Proof.
  cbv zeta. intros Htr Hlast.
  destruct (call_abort _ _ _ _ _ _ Htr) as
    (l & t & rs & k & e & rd & tl & n & -> & Hq & Ht & Hfs & Ho & Ha & Hn & Hl);
    [done|done|].
  rewrite Htr, Ho.
  inversion Ha; subst; cbn [app] in Ht; locate.
  - exfalso. eapply Hlast. apply last_snoc.
  - split_and!; [done|done|].
    rewrite !elem_of_app. intros [[Hin|Hin]|Hin].
    + by apply quiet_not_terminal in Hin.
    + by apply elem_of_nil in Hin.
    + repeat (apply elem_of_cons in Hin as [?|Hin]; [done|]).
      by apply elem_of_nil in Hin.
Qed.

(** C10. If the validator rejects an entry whose [Close] fails as well,
    the call still returns the validator's error: the entry is closed, the
    error of that [Close] is dropped, and only the deferred releases
    follow. *)
Theorem rejected_entry_close_error_dropped path fv hs t1 f err cerr t2 :
  let c := call filepath_Clean fs order path fv hs in
  Close f = Some cerr →
  trace c.2 = t1 ++ EvValidate f (Some err) :: t2 →
  outcome c = Some (ValidatorError, err) ∧
  t2 = [EvFileClose f (Some cerr); EvTarClose; EvOsClose] ∧
  (∀ e, outcome c ≠ Some (CloseError, e)).
Proof.
  cbv zeta. intros Hclose Htr.
  destruct (call_abort _ _ _ _ _ _ Htr) as
    (l & t & rs & k & e & rd & tl & n & -> & Hq & Ht & Hfs & Ho & Ha & Hn & Hl);
    [done|done|].
  rewrite Ho.
  inversion Ha; subst; cbn [app] in Ht; locate.
  by rewrite Hclose.
Qed.

End Call.

(** ** Two calls on the same archive *)

Section TwoRuns.
Context {HS : Type}.
Variables order1 order2 : nat → list string → list string.
Hypothesis order1_ok : admissible order1.
Hypothesis order2_ok : admissible order2.
Variable filepath_Clean : string → string.
Variable fs : string → error + Package.

Implicit Types (st : @State HS) (fv : option (@FileValidator HS)) (hs : HS).

(** The loop does not depend on the order in which [range] visits the
    keys: at most one key equals the name of the entry. *)
Lemma stream_order_irrelevant fv rs :
  ∀ st, stream order1 fv rs st = stream order2 fv rs st.
Proof.
  induction rs as [|[f|err] rs IH]; intros st.
  - done.
  - rewrite !stream_file by done. cbv zeta.
    destruct (validated fv f _) as [[verr|] st2]; cbn [fst snd]; [done|].
    destruct (Close f); [done|]. apply IH.
  - by rewrite !stream_fail.
Qed.

(** C8, as amended. Two calls on the same well-formed archive, with the
    same validator in the same state, end alike: both succeed, or both
    fail with an error of the same kind. They return the same error
    whenever at least one of the two required names is in the archive.
    (With both names missing, each call reports the name that its own
    [range] over the map visits first.) *)
Theorem two_runs_agree path fv hs rs :
  fs (filepath_Clean path) = inr (TarGz rs) →
  clean rs →
  let c1 := call filepath_Clean fs order1 path fv hs in
  let c2 := call filepath_Clean fs order2 path fv hs in
  fst <$> outcome c1 = fst <$> outcome c2 ∧
  ((∃ k, k ∈ required ∧ k ∈ entryNames rs) → outcome c1 = outcome c2).
Proof.
  intros Hfs Hclean. cbv zeta. rewrite !call_eq. cbv zeta. rewrite Hfs.
  rewrite (stream_order_irrelevant fv rs).
  set (st0 := mkState hs filesLit 0 _).
  pose proof (stream_files order2 order2_ok fv rs Hclean st0) as Hfiles.
  destruct (stream order2 fv rs st0) as [[[]|k e] st]; cbn [fst snd] in *; [|done].
  specialize (Hfiles eq_refl).
  pose proof (terminal_spec order1 order1_ok st _ Hfiles) as H1.
  pose proof (terminal_spec order2 order2_ok st _ Hfiles) as H2.
  unfold outcome. cbn [fst].
  destruct (terminal order1 st).1 as [[]|kind1 e1], (terminal order2 st).1 as [[]|kind2 e2].
  - done.
  - destruct H2 as (k2 & Hk2 & Hn2 & _). by destruct Hn2; apply H1.
  - destruct H1 as (k1 & Hk1 & Hn1 & _). by destruct Hn1; apply H2.
  - destruct H1 as (k1 & Hk1 & Hn1 & -> & ->), H2 as (k2 & Hk2 & Hn2 & -> & ->).
    split; [done|]. intros (k & Hk & Hin).
    assert (k1 = k2) as ->; [|done].
    unfold required in *. rewrite !elem_of_cons, elem_of_nil in Hk, Hk1, Hk2.
    destruct Hk as [->|[->|[]]], Hk1 as [->|[->|[]]], Hk2 as [->|[->|[]]]; done.
Qed.

End TwoRuns.

(** ** The statements on concrete archives *)

Lemma id_order_admissible : admissible id_order.
Proof. by intros n l. Qed.

Lemma rev_order_admissible : admissible rev_order.
Proof. intros n l. apply reverse_Permutation. Qed.

(** C1 as stated fails on the archive with no entry at all: both required
    names are missing, and the error names one of them only, whichever
    order the terminal [range] takes. *)
Lemma one_missing_name_goes_unreported :
  clean [] ∧
  (∀ k, k ∈ required → k ∉ entryNames []) ∧
  ¬ names_every_missing
      (call cleanPath (packageOf []) id_order pkg (@None (@FileValidator unit)) tt) [] ∧
  ¬ names_every_missing
      (call cleanPath (packageOf []) rev_order pkg (@None (@FileValidator unit)) tt) [].
Proof.
  split_and!.
  - constructor.
  - intros k _. apply not_elem_of_nil.
  - intros (e & He & Hall). vm_compute in He. injection He as <-.
    destruct (Hall "fastly.toml") as [Hmiss _]; [by left|].
    specialize (Hmiss (not_elem_of_nil _)). by vm_compute in Hmiss.
  - intros (e & He & Hall). vm_compute in He. injection He as <-.
    destruct (Hall "main.wasm") as [Hmiss _]; [by right; left|].
    specialize (Hmiss (not_elem_of_nil _)). by vm_compute in Hmiss.
Qed.

(** C8 as stated fails on the same archive: two calls whose terminal
    [range] visits the two keys in opposite orders report different
    names. *)
Lemma same_archive_two_reports :
  admissible id_order ∧ admissible rev_order ∧ clean [] ∧
  outcome (call cleanPath (packageOf []) id_order pkg (@None (@FileValidator unit)) tt)
  ≠ outcome (call cleanPath (packageOf []) rev_order pkg (@None (@FileValidator unit)) tt).
Proof.
  split_and!;
    [apply id_order_admissible|apply rev_order_admissible|constructor|].
  vm_compute. discriminate.
Qed.

(** C4 as stated fails on the archive it names: the entry stored as
    [subdir/main.wasm] has the [f.Name()] [main.wasm] and is counted, and the
    call succeeds, under both orders. *)
Lemma nested_main_wasm_is_counted :
  Name (tarFile "subdir/main.wasm" None) = "main.wasm" ∧
  clean nestedArchive ∧
  outcome (call cleanPath (packageOf nestedArchive) id_order pkg
             (@None (@FileValidator unit)) tt) = None ∧
  outcome (call cleanPath (packageOf nestedArchive) rev_order pkg
             (@None (@FileValidator unit)) tt) = None ∧
  outcome (call cleanPath (packageOf nestedArchive) id_order pkg
             (@None (@FileValidator unit)) tt)
  ≠ Some (MissingRequiredFileError, missingFile "main.wasm").
Proof.
  split_and!; [reflexivity|repeat constructor|by vm_compute|by vm_compute|].
  vm_compute. discriminate.
Qed.

(** C6 as stated fails on a gzip that holds no tar: [tar.Open] succeeds,
    and the call returns the error of the first read, not an error of
    unarchiving. *)
Lemma gzip_without_tar_is_a_read_error :
  outcome (call cleanPath notTar id_order pkg (@None (@FileValidator unit)) tt)
  = Some (ReadError,
          Errorf_w "error reading package" (errorString "archive/tar: invalid tar header")) ∧
  ∀ e, outcome (call cleanPath notTar id_order pkg (@None (@FileValidator unit)) tt)
       ≠ Some (UnarchiveError, e).
Proof.
  split; [by vm_compute|]. intros e. vm_compute. discriminate.
Qed.

(** C1, as amended, on an archive with [fastly.toml] only. *)
Lemma missing_required_reports_one_witness :
  clean onlyToml ∧ accepts (Some acceptAll) onlyToml ∧
  (∃ k, k ∈ required ∧ k ∉ entryNames onlyToml) ∧
  let c := call cleanPath (packageOf onlyToml) rev_order pkg (Some acceptAll) 0 in
  ∃ k, k ∈ required ∧ (k ∉ entryNames onlyToml) ∧
       outcome c = Some (MissingRequiredFileError, missingFile k) ∧
       List.find (unset c.2) (lastVisit rev_order c.2) = Some k.
Proof.
  assert (Hclean : clean onlyToml) by (repeat constructor).
  assert (Hacc : accepts (Some acceptAll) onlyToml) by (intros f s _; reflexivity).
  assert (Hmiss : ∃ k, k ∈ required ∧ k ∉ entryNames onlyToml).
  { exists "main.wasm". split; compute_done. }
  split_and!; [exact Hclean|exact Hacc|exact Hmiss|].
  exact (missing_required_reports_one rev_order rev_order_admissible cleanPath
           (packageOf onlyToml) pkg (Some acceptAll) 0 onlyToml eq_refl Hclean Hacc Hmiss).
Defined.

(** C2 on an archive with both names and a [README.md]. *)
Lemma both_present_succeeds_witness :
  clean complete ∧
  "fastly.toml" ∈ entryNames complete ∧ "main.wasm" ∈ entryNames complete ∧
  outcome (call cleanPath (packageOf complete) rev_order pkg None tt) = None.
Proof.
  assert (Hclean : clean complete) by (repeat constructor).
  assert (Htoml : "fastly.toml" ∈ entryNames complete) by compute_done.
  assert (Hwasm : "main.wasm" ∈ entryNames complete) by compute_done.
  split_and!; [exact Hclean|exact Htoml|exact Hwasm|].
  exact (both_present_succeeds rev_order rev_order_admissible cleanPath
           (packageOf complete) pkg tt complete eq_refl Hclean Htoml Hwasm).
Defined.

(** C3 on an archive whose second entry the validator rejects. *)
Lemma validator_error_aborts_witness :
  let c := call cleanPath (packageOf withSecret) id_order pkg (Some rejectSecret) 0 in
  trace c.2 = beforeSecret ++ EvValidate secretKey (Some secretError) ::
                [EvFileClose secretKey None; EvTarClose; EvOsClose] ∧
  outcome c = Some (ValidatorError, secretError) ∧
  ∃ k, withSecret !! k = Some (ReadFile secretKey) ∧
       length (readsOf beforeSecret) = S k ∧ length (readsOf (trace c.2)) = S k.
Proof.
  cbv zeta.
  assert (Htr : trace (call cleanPath (packageOf withSecret) id_order pkg
                         (Some rejectSecret) 0).2
                = beforeSecret ++ EvValidate secretKey (Some secretError) ::
                    [EvFileClose secretKey None; EvTarClose; EvOsClose])
    by (vm_compute; reflexivity).
  split; [exact Htr|].
  destruct (validator_error_aborts id_order id_order_admissible cleanPath
              (packageOf withSecret) pkg (Some rejectSecret) 0 withSecret
              _ _ _ _ eq_refl Htr) as (Ho & _ & Hk).
  split; [exact Ho|exact Hk].
Defined.

(** C4, as amended, on the archive with [subdir/main.wasm] and
    [fastly.toml], and on the archive with [docs/README.md] and
    [fastly.toml]. *)
Lemma base_name_is_compared_witness :
  (clean nestedArchive ∧ "fastly.toml" ∈ entryNames nestedArchive ∧
   ReadFile (tarFile ("subdir" +:+ "/main.wasm") None) ∈ nestedArchive ∧
   outcome (call cleanPath (packageOf nestedArchive) id_order pkg
              (@None (@FileValidator unit)) tt) = None) ∧
  (clean tomlAndReadme ∧ "fastly.toml" ∈ entryNames tomlAndReadme ∧
   ("main.wasm" ∉ entryNames tomlAndReadme) ∧
   outcome (call cleanPath (packageOf tomlAndReadme) id_order pkg
              (@None (@FileValidator unit)) tt)
   = Some (MissingRequiredFileError, missingFile "main.wasm")).
Proof.
  assert (Hclean : clean nestedArchive) by (repeat constructor).
  assert (Htoml : "fastly.toml" ∈ entryNames nestedArchive) by compute_done.
  assert (Hin : ReadFile (tarFile ("subdir" +:+ "/main.wasm") None) ∈ nestedArchive)
    by apply list_elem_of_here.
  assert (Hclean' : clean tomlAndReadme) by (repeat constructor).
  assert (Htoml' : "fastly.toml" ∈ entryNames tomlAndReadme) by compute_done.
  assert (Hwasm' : "main.wasm" ∉ entryNames tomlAndReadme) by compute_done.
  split; split_and!; try assumption.
  - exact (proj1 (proj2 (base_name_is_compared id_order id_order_admissible cleanPath
             (packageOf nestedArchive) pkg None tt nestedArchive eq_refl Hclean I Htoml))
             "subdir" None Hin).
  - exact (proj2 (proj2 (base_name_is_compared id_order id_order_admissible cleanPath
             (packageOf tomlAndReadme) pkg None tt tomlAndReadme eq_refl Hclean' I Htoml'))
             Hwasm').
Defined.

(** C5 on an archive whose second read fails. *)
Lemma read_error_aborts_witness :
  let c := call cleanPath (packageOf truncated) id_order pkg (Some acceptAll) 0 in
  trace c.2 = beforeTruncation ++ EvTarRead (ReadFail (errorString "unexpected EOF")) ::
                [EvTarClose; EvOsClose] ∧
  outcome c = Some (ReadError, Errorf_w "error reading package" (errorString "unexpected EOF")) ∧
  (EvRange Terminal ∉ trace c.2).
Proof.
  cbv zeta.
  assert (Htr : trace (call cleanPath (packageOf truncated) id_order pkg
                         (Some acceptAll) 0).2
                = beforeTruncation ++ EvTarRead (ReadFail (errorString "unexpected EOF")) ::
                    [EvTarClose; EvOsClose])
    by (vm_compute; reflexivity).
  split; [exact Htr|].
  destruct (read_error_aborts id_order id_order_admissible cleanPath
              (packageOf truncated) pkg (Some acceptAll) 0 _ _ _ Htr eq_refl)
    as (Ho & _ & Hterm & _).
  split; [exact Ho|exact Hterm].
Defined.

(** C6, as amended, on a path that does not exist, on a file that is not a
    gzip and on a gzip that holds no tar. *)
Lemma open_errors_mark_nothing_witness :
  (let c := call cleanPath noFile id_order "missing.tar.gz" (Some rejectSecret) 0 in
   outcome c = Some (OpenError,
                     Errorf_w "error reading package"
                       (errorString "open missing.tar.gz: no such file or directory")) ∧
   trace c.2 = [EvOpen "missing.tar.gz"
                  (Some (errorString "open missing.tar.gz: no such file or directory"))] ∧
   (∀ k, files c.2 !! k ≠ Some true)) ∧
  (let c := call cleanPath notGzip id_order "notes.txt" (Some rejectSecret) 0 in
   outcome c = Some (UnarchiveError,
                     Errorf_w "error unarchiving package" (errorString "gzip: invalid header")) ∧
   trace c.2 = [EvOpen "notes.txt" None;
                EvTarOpen (Some (errorString "gzip: invalid header")); EvOsClose] ∧
   (∀ k, files c.2 !! k ≠ Some true)) ∧
  (let c := call cleanPath notTar id_order "notes.gz" (Some rejectSecret) 0 in
   outcome c = Some (ReadError,
                     Errorf_w "error reading package"
                       (errorString "archive/tar: invalid tar header")) ∧
   trace c.2 = [EvOpen "notes.gz" None; EvTarOpen None;
                EvTarRead (ReadFail (errorString "archive/tar: invalid tar header"));
                EvTarClose; EvOsClose] ∧
   (∀ k, files c.2 !! k ≠ Some true)).
Proof.
  split_and!.
  - exact (open_errors_mark_nothing id_order cleanPath noFile "missing.tar.gz"
             (Some rejectSecret) 0).
  - exact (open_errors_mark_nothing id_order cleanPath notGzip "notes.txt"
             (Some rejectSecret) 0).
  - exact (open_errors_mark_nothing id_order cleanPath notTar "notes.gz"
             (Some rejectSecret) 0 _ _ eq_refl eq_refl).
Defined.

(** C8, as amended, on the archive with [fastly.toml] only, under the two
    orders. *)
Lemma two_runs_agree_witness :
  clean onlyToml ∧
  let c1 := call cleanPath (packageOf onlyToml) id_order pkg (Some rejectSecret) 0 in
  let c2 := call cleanPath (packageOf onlyToml) rev_order pkg (Some rejectSecret) 0 in
  fst <$> outcome c1 = fst <$> outcome c2 ∧
  ((∃ k, k ∈ required ∧ k ∈ entryNames onlyToml) → outcome c1 = outcome c2).
Proof.
  assert (Hclean : clean onlyToml) by (repeat constructor).
  split; [exact Hclean|].
  exact (two_runs_agree id_order rev_order id_order_admissible rev_order_admissible
           cleanPath (packageOf onlyToml) pkg (Some rejectSecret) 0 onlyToml
           eq_refl Hclean).
Defined.

(** C9 on an archive whose second entry does not close. *)
Lemma close_error_aborts_witness :
  let c := call cleanPath (packageOf stuck) rev_order pkg (Some acceptAll) 0 in
  trace c.2 = beforeStuck ++ EvFileClose stuckToml (Some (errorString "close failed")) ::
                [EvTarClose; EvOsClose] ∧
  (∀ verr, last beforeStuck ≠ Some (EvValidate stuckToml (Some verr))) ∧
  outcome c = Some (CloseError, Errorf_w "error closing file" (errorString "close failed")) ∧
  (EvRange Terminal ∉ trace c.2).
Proof.
  cbv zeta.
  assert (Htr : trace (call cleanPath (packageOf stuck) rev_order pkg
                         (Some acceptAll) 0).2
                = beforeStuck ++ EvFileClose stuckToml (Some (errorString "close failed")) ::
                    [EvTarClose; EvOsClose])
    by (vm_compute; reflexivity).
  assert (Hlast : ∀ verr, last beforeStuck ≠ Some (EvValidate stuckToml (Some verr)))
    by (intros verr Heq; vm_compute in Heq; discriminate Heq).
  split_and!; [exact Htr|exact Hlast|..];
    destruct (close_error_aborts rev_order rev_order_admissible cleanPath
                (packageOf stuck) pkg (Some acceptAll) 0 _ _ _ _ Htr Hlast)
      as (Ho & _ & Hterm); [exact Ho|exact Hterm].
Defined.

(** C10 on an archive whose rejected entry does not close either. *)
Lemma rejected_entry_close_error_dropped_witness :
  let c := call cleanPath (packageOf withLeakySecret) rev_order pkg (Some rejectSecret) 0 in
  Close leakyKey = Some (errorString "close failed") ∧
  trace c.2 = beforeLeakySecret ++ EvValidate leakyKey (Some secretError) ::
                [EvFileClose leakyKey (Some (errorString "close failed"));
                 EvTarClose; EvOsClose] ∧
  outcome c = Some (ValidatorError, secretError) ∧
  (∀ e, outcome c ≠ Some (CloseError, e)).
Proof.
  cbv zeta.
  assert (Htr : trace (call cleanPath (packageOf withLeakySecret) rev_order pkg
                         (Some rejectSecret) 0).2
                = beforeLeakySecret ++ EvValidate leakyKey (Some secretError) ::
                    [EvFileClose leakyKey (Some (errorString "close failed"));
                     EvTarClose; EvOsClose])
    by (vm_compute; reflexivity).
  split_and!; [reflexivity|exact Htr|..];
    destruct (rejected_entry_close_error_dropped rev_order rev_order_admissible cleanPath
                (packageOf withLeakySecret) pkg (Some rejectSecret) 0
                beforeLeakySecret leakyKey secretError (errorString "close failed") _
                eq_refl Htr) as (Ho & _ & Hno); [exact Ho|exact Hno].
Defined.

(** ** Every run of [validate] *)

Lemma filesRead_app t1 t2 : filesRead (t1 ++ t2) = filesRead t1 ++ filesRead t2.
Proof. apply omap_app. Qed.

Lemma filesValidated_app t1 t2 :
  filesValidated (t1 ++ t2) = filesValidated t1 ++ filesValidated t2.
Proof. apply omap_app. Qed.

Lemma entryOps_app t1 t2 : entryOps (t1 ++ t2) = entryOps t1 ++ entryOps t2.
Proof. apply omap_app. Qed.

Lemma filesRead_readsOf t :
  filesRead t = omap (λ r, match r with ReadFile f => Some f | ReadFail _ => None end) (readsOf t).
Proof.
  induction t as [|ev t IH]; [done|].
  change (ev :: t) with ([ev] ++ t).
  rewrite filesRead_app, readsOf_app, omap_app, <- IH. f_equal.
  by destruct ev as [| |[f|err]| | | | | |].
Qed.

Section Runs.
Context {HS : Type}.
Variable order : nat → list string → list string.
Hypothesis order_ok : admissible order.

Implicit Types (st : @State HS) (fv : option (@FileValidator HS)) (hs : HS).

(** The calls of one iteration, from [tar.Read()] to [f.Close()], and the
    state they leave. *)
Lemma iteration_run fv f st :
  let st3 := logged (EvFileClose f (Close f))
               (validated fv f (tracked (Name f) (logged (EvTarRead (ReadFile f)) st))).2 in
  ∃ h, trace st3 = trace st ++ h ∧
       Forall (λ ev, loopCall ev = true) h ∧
       readsOf h = [ReadFile f] ∧
       entryOps h = [Opened f; Closed f] ∧
       filesValidated h = (if fv is Some _ then [f] else []) ∧
       hstate st3 = hookRun fv [f] (hstate st) ∧
       files st3 = observe (Name f) (files st) ∧
       ranges st3 = S (ranges st).
Proof.
  cbv zeta. set (st1 := tracked _ _).
  assert (Ht1 : trace st1 = trace st ++ upToValidator f st).
  { unfold st1, tracked, logged, upToValidator. cbn. by rewrite <- app_assoc. }
  exists (upToValidator f st ++
          match fv with None => [] | Some _ => [EvValidate f (validated fv f st1).1] end ++
          [EvFileClose f (Close f)]).
  split_and!.
  - cbn [logged trace]. by rewrite trace_validated, Ht1, <- !app_assoc.
  - apply Forall_app. split.
    + unfold upToValidator. case_decide; repeat constructor.
    + destruct fv; repeat constructor.
  - rewrite readsOf_app, readsOf_upToValidator. by destruct fv.
  - rewrite entryOps_app. unfold upToValidator. case_decide; by destruct fv.
  - rewrite filesValidated_app. unfold upToValidator. case_decide; by destruct fv.
  - cbn [logged hstate]. destruct fv as [v|]; [|done]. cbn.
    by destruct (v f (hstate st)).
  - cbn [logged files]. by rewrite files_validated.
  - cbn [logged ranges]. by rewrite ranges_validated.
Qed.

(** The calls of the loop, and the state it leaves, whatever its result. *)
Lemma stream_run fv rs :
  ∀ st, ∃ d,
    trace (stream order fv rs st).2 = trace st ++ d ∧
    Forall (λ ev, loopCall ev = true) d ∧
    readsOf d `prefix_of` rs ++ [ReadFail io_EOF] ∧
    entryOps d = filesRead d ≫= (λ f, [Opened f; Closed f]) ∧
    filesValidated d = (if fv is Some _ then filesRead d else []) ∧
    hstate (stream order fv rs st).2 = hookRun fv (filesRead d) (hstate st) ∧
    files (stream order fv rs st).2 = observeAll (Name <$> filesRead d) (files st) ∧
    ranges (stream order fv rs st).2 = ranges st + length (filesRead d).
Proof.
  induction rs as [|[f|err] rs IH]; intros st.
  - rewrite stream_nil. exists [EvTarRead (ReadFail io_EOF)].
    split_and!;
      first [done|by repeat constructor|by destruct fv|cbn [logged ranges length filesRead omap list_omap]; lia].
  - rewrite (stream_file order order_ok). cbv zeta.
    destruct (iteration_run fv f st) as (h & Hh & Hloop & Hreads & Hops & Hval & Hhs & Hfiles & Hranges).
    cbv zeta in Hh, Hhs, Hfiles, Hranges.
    set (st3 := logged _ _) in *.
    assert (Hfr : filesRead h = [f]) by (by rewrite filesRead_readsOf, Hreads).
    assert (Hone : ∃ d,
      trace st3 = trace st ++ d ∧
      Forall (λ ev, loopCall ev = true) d ∧
      readsOf d `prefix_of` (ReadFile f :: rs) ++ [ReadFail io_EOF] ∧
      entryOps d = filesRead d ≫= (λ f, [Opened f; Closed f]) ∧
      filesValidated d = (if fv is Some _ then filesRead d else []) ∧
      hstate st3 = hookRun fv (filesRead d) (hstate st) ∧
      files st3 = observeAll (Name <$> filesRead d) (files st) ∧
      ranges st3 = ranges st + length (filesRead d)).
    { exists h. rewrite Hfr, Hreads. split_and!; try done.
      - cbn [app]. apply prefix_cons, prefix_nil.
      - rewrite Hranges. cbn [length]. lia. }
    destruct (validated fv f _).1 as [verr|]; [done|].
    destruct (Close f) as [cerr|]; [done|].
    destruct (IH st3) as (d & Hd & Hdloop & Hdreads & Hdops & Hdval & Hdhs & Hdfiles & Hdranges).
    exists (h ++ d).
    rewrite readsOf_app, entryOps_app, filesValidated_app, filesRead_app, Hfr, Hreads.
    split_and!.
    + by rewrite Hd, Hh, <- app_assoc.
    + by apply Forall_app.
    + cbn [app]. by apply prefix_cons.
    + by rewrite Hops, Hdops.
    + rewrite Hval, Hdval. by destruct fv.
    + rewrite Hdhs, Hhs. by destruct fv.
    + by rewrite Hdfiles, Hfiles.
    + rewrite Hdranges, Hranges. cbn. lia.
  - rewrite stream_fail. exists [EvTarRead (ReadFail err)].
    split_and!;
      first [done|by repeat constructor|cbn [app]; apply prefix_cons, prefix_nil|by destruct fv
            |cbn [logged ranges length filesRead omap list_omap]; lia].
Qed.

(** *** The whole call *)

Variable filepath_Clean : string → string.
Variable fs : string → error + Package.

(** The calls of [validate] on a tar.gz: the two opens, the calls [d] of the
    loop, the terminal check if the loop reached the end, the two deferred
    closes. *)
Lemma call_run path fv hs rs :
  fs (filepath_Clean path) = inr (TarGz rs) →
  let c := call filepath_Clean fs order path fv hs in
  ∃ d term,
    trace c.2 = [EvOpen (filepath_Clean path) None; EvTarOpen None] ++ d ++ term ++
                [EvTarClose; EvOsClose] ∧
    (term = [] ∨ term = [EvRange Terminal]) ∧
    Forall (λ ev, loopCall ev = true) d ∧
    readsOf d `prefix_of` rs ++ [ReadFail io_EOF] ∧
    entryOps d = filesRead d ≫= (λ f, [Opened f; Closed f]) ∧
    filesValidated d = (if fv is Some _ then filesRead d else []) ∧
    hstate c.2 = hookRun fv (filesRead d) hs ∧
    files c.2 = observeAll (Name <$> filesRead d) filesLit ∧
    (outcome c = None → ∀ k, k ∈ required → k ∈ Name <$> filesRead d).
Proof.
  intros Hfs. cbv zeta. rewrite call_eq. cbv zeta. rewrite Hfs.
  set (st0 := mkState hs filesLit 0 _).
  destruct (stream_run fv rs st0) as (d & Hd & Hloop & Hreads & Hops & Hval & Hhs & Hfiles & _).
  destruct (stream order fv rs st0) as [[[]|k e] st]; cbn [fst snd] in *.
  - exists d, [EvRange Terminal].
    pose proof (terminal_spec order order_ok st _ Hfiles) as Hterm.
    unfold terminal in *. rewrite check_spec in *. cbn [fst snd logged trace hstate files] in *.
    split_and!; try done; [by rewrite Hd, <- !app_assoc|by right|].
    unfold outcome. cbn [fst]. by destruct (List.find _ _).
  - exists d, []. cbn [fst snd logged trace hstate files].
    split_and!; try done; [by rewrite Hd, <- !app_assoc|by left].
Qed.

(** The opens, the terminal check and the deferred closes are neither reads
    nor calls on entries. *)
Lemma around_loop p (d term : list Event) :
  term = [] ∨ term = [EvRange Terminal] →
  let t := [EvOpen p None; EvTarOpen None] ++ d ++ term ++ [EvTarClose; EvOsClose] in
  readsOf t = readsOf d ∧ filesRead t = filesRead d ∧
  entryOps t = entryOps d ∧ filesValidated t = filesValidated d.
Proof.
  intros [-> | ->]; cbv zeta;
    rewrite !readsOf_app, !filesRead_app, !entryOps_app, !filesValidated_app;
    cbn; by rewrite !app_nil_r.
Qed.

(** X1. Whatever the outcome, [validate] releases what it has opened, once,
    as its last calls and in reverse order of opening, and releases nothing
    that it has not opened. *)
Theorem resources_released path fv hs :
  let c := call filepath_Clean fs order path fv hs in
  match fs (filepath_Clean path) with
  | inl _ => (EvOsClose ∉ trace c.2) ∧ EvTarClose ∉ trace c.2
  | inr (NotTarGz _) =>
      ∃ body, trace c.2 = body ++ [EvOsClose] ∧
              (EvOsClose ∉ body) ∧ EvTarClose ∉ trace c.2
  | inr (TarGz _) =>
      ∃ body, trace c.2 = body ++ [EvTarClose; EvOsClose] ∧
              (EvOsClose ∉ body) ∧ EvTarClose ∉ body
  end.
Proof.
  cbv zeta. destruct (fs (filepath_Clean path)) as [err|[err|rs]] eqn:Hfs.
  - rewrite call_eq. cbv zeta. rewrite Hfs. cbn [snd trace].
    split; intros Hin; by repeat (apply elem_of_cons in Hin as [?|Hin]; [done|]);
      apply elem_of_nil in Hin.
  - rewrite call_eq. cbv zeta. rewrite Hfs. cbn [snd trace].
    exists [EvOpen (filepath_Clean path) None; EvTarOpen (Some err)].
    split_and!; [done| |]; intros Hin;
      by repeat (apply elem_of_cons in Hin as [?|Hin]; [done|]); apply elem_of_nil in Hin.
  - destruct (call_run path fv hs rs Hfs) as (d & term & Htr & Hterm & Hloop & _).
    exists ([EvOpen (filepath_Clean path) None; EvTarOpen None] ++ d ++ term).
    split; [by rewrite Htr, <- !app_assoc|].
    assert (Hnot : ∀ ev, loopCall ev = false → ev ≠ EvRange Terminal →
              ev ≠ EvOpen (filepath_Clean path) None → ev ≠ EvTarOpen None →
              ev ∉ [EvOpen (filepath_Clean path) None; EvTarOpen None] ++ d ++ term).
    { intros ev Hev H1 H2 H3. rewrite !elem_of_app. intros [Hin|[Hin|Hin]].
      - by repeat (apply elem_of_cons in Hin as [?|Hin]; [done|]); apply elem_of_nil in Hin.
      - apply (proj1 (Forall_forall _ _) Hloop) in Hin. congruence.
      - destruct Hterm as [-> | ->].
        + by apply elem_of_nil in Hin.
        + by apply list_elem_of_singleton in Hin. }
    split; by apply Hnot.
Qed.

(** X2. Every entry that [tar.Read()] returns is closed once, before the
    next read and before [validate] returns: on success, when the validator
    rejects the entry, and when a [Close] or a read fails. *)
Theorem entries_closed_in_turn path fv hs :
  let c := call filepath_Clean fs order path fv hs in
  entryOps (trace c.2) = filesRead (trace c.2) ≫= (λ f, [Opened f; Closed f]).
Proof.
  cbv zeta. destruct (fs (filepath_Clean path)) as [err|[err|rs]] eqn:Hfs.
  - rewrite call_eq. cbv zeta. by rewrite Hfs.
  - rewrite call_eq. cbv zeta. by rewrite Hfs.
  - destruct (call_run path fv hs rs Hfs) as (d & term & Htr & Hterm & _ & _ & Hops & _).
    destruct (around_loop (filepath_Clean path) d term Hterm) as (_ & Hfr & Heo & _).
    by rewrite Htr, Hfr, Heo.
Qed.

(** X3. A validator is called once on every entry that is read, in the
    order of the stream, each time in the state its previous call left; a
    nil validator is never called. *)
Theorem validator_sees_every_entry path fv hs :
  let c := call filepath_Clean fs order path fv hs in
  filesValidated (trace c.2) = (if fv is Some _ then filesRead (trace c.2) else []) ∧
  hstate c.2 = hookRun fv (filesRead (trace c.2)) hs.
Proof.
  cbv zeta. destruct (fs (filepath_Clean path)) as [err|[err|rs]] eqn:Hfs.
  - rewrite call_eq. cbv zeta. rewrite Hfs. by destruct fv.
  - rewrite call_eq. cbv zeta. rewrite Hfs. by destruct fv.
  - destruct (call_run path fv hs rs Hfs)
      as (d & term & Htr & Hterm & _ & _ & _ & Hval & Hhs & _).
    destruct (around_loop (filepath_Clean path) d term Hterm) as (_ & Hfr & _ & Hfv).
    by rewrite Htr, Hfr, Hfv.
Qed.


Lemma filesRead_in_stream (d : list Event) rs f :
  readsOf d `prefix_of` rs ++ [ReadFail io_EOF] → f ∈ filesRead d → ReadFile f ∈ rs.
Proof.
  intros [k Hk] Hin. rewrite filesRead_readsOf in Hin.
  apply list_elem_of_omap in Hin as (r & Hr & Hrf).
  destruct r as [f'|err]; simplify_eq.
  assert (Hin : ReadFile f ∈ rs ++ [ReadFail io_EOF]).
  { rewrite Hk. apply elem_of_app. by left. }
  apply elem_of_app in Hin as [?|Hin]; [done|].
  by apply list_elem_of_singleton in Hin.
Qed.

(** X5. [validate] returns nil only for a tar.gz in which it has read an
    entry called [fastly.toml] and an entry called [main.wasm]. *)
Theorem success_needs_both_names path fv hs :
  let c := call filepath_Clean fs order path fv hs in
  outcome c = None →
  ∃ rs, fs (filepath_Clean path) = inr (TarGz rs) ∧
        ∀ k, k ∈ required →
             ∃ f, ReadFile f ∈ rs ∧ Name f = k ∧ f ∈ filesRead (trace c.2).
Proof.
  cbv zeta. intros Hok.
  destruct (fs (filepath_Clean path)) as [err|[err|rs]] eqn:Hfs.
  - rewrite call_eq in Hok. cbv zeta in Hok. by rewrite Hfs in Hok.
  - rewrite call_eq in Hok. cbv zeta in Hok. by rewrite Hfs in Hok.
  - exists rs. split; [done|]. intros k Hk.
    destruct (call_run path fv hs rs Hfs)
      as (d & term & Htr & Hterm & _ & Hreads & _ & _ & _ & _ & Hall).
    destruct (around_loop (filepath_Clean path) d term Hterm) as (_ & Hfr & _).
    specialize (Hall Hok k Hk). apply list_elem_of_fmap in Hall as (f & -> & Hf).
    exists f. split_and!; [by eapply filesRead_in_stream|done|by rewrite Htr, Hfr].
Qed.

(** X6. After a call on a tar.gz, the map has the two required names as its
    only keys, and the flag of a name is set exactly when an entry with that
    very name has been read; names of other entries never become keys. *)
Theorem flags_record_names_read path fv hs rs k :
  let c := call filepath_Clean fs order path fv hs in
  fs (filepath_Clean path) = inr (TarGz rs) →
  files c.2 !! k =
  if decide (k ∈ required)
  then Some (bool_decide (k ∈ Name <$> filesRead (trace c.2)))
  else None.
Proof.
  cbv zeta. intros Hfs.
  destruct (call_run path fv hs rs Hfs)
    as (d & term & Htr & Hterm & _ & _ & _ & _ & _ & Hfiles & _).
  destruct (around_loop (filepath_Clean path) d term Hterm) as (_ & Hfr & _).
  by rewrite Hfiles, lookup_flags, Htr, Hfr.
Qed.

(** X14. [validate] opens one file and no other: its first call is
    [os.Open] on the cleaned path, and no later call is an [os.Open]; and it
    calls [tar.Open] at most once, right after, only if the file opened. *)
Theorem opens_only_the_package path fv hs :
  let c := call filepath_Clean fs order path fv hs in
  ∃ r rest,
    trace c.2 = EvOpen (filepath_Clean path) r :: rest ∧
    (∀ name r', EvOpen name r' ∉ rest) ∧
    match r with
    | Some _ => rest = []
    | None => ∃ r' rest', rest = EvTarOpen r' :: rest' ∧ ∀ r'', EvTarOpen r'' ∉ rest'
    end.
Proof.
  cbv zeta. destruct (fs (filepath_Clean path)) as [err|[err|rs]] eqn:Hfs.
  - rewrite call_eq. cbv zeta. rewrite Hfs. cbn [snd trace].
    exists (Some err), []. split_and!; [done| |done].
    intros name r' Hin. by apply elem_of_nil in Hin.
  - rewrite call_eq. cbv zeta. rewrite Hfs. cbn [snd trace].
    exists None, [EvTarOpen (Some err); EvOsClose]. split_and!; [done| |].
    + intros name r' Hin.
      by repeat (apply elem_of_cons in Hin as [?|Hin]; [done|]); apply elem_of_nil in Hin.
    + exists (Some err), [EvOsClose]. split; [done|]. intros r'' Hin.
      by repeat (apply elem_of_cons in Hin as [?|Hin]; [done|]); apply elem_of_nil in Hin.
  - destruct (call_run path fv hs rs Hfs) as (d & term & Htr & Hterm & Hloop & _).
    assert (Hnot : ∀ ev, loopCall ev = false → ev ≠ EvRange Terminal →
              ev ≠ EvTarClose → ev ≠ EvOsClose →
              ev ∉ d ++ term ++ [EvTarClose; EvOsClose]).
    { intros ev Hev H1 H2 H3. rewrite !elem_of_app. intros [Hin|[Hin|Hin]].
      - apply (proj1 (Forall_forall _ _) Hloop) in Hin. congruence.
      - destruct Hterm as [-> | ->].
        + by apply elem_of_nil in Hin.
        + by apply list_elem_of_singleton in Hin.
      - by repeat (apply elem_of_cons in Hin as [?|Hin]; [done|]); apply elem_of_nil in Hin. }
    exists None, (EvTarOpen None :: d ++ term ++ [EvTarClose; EvOsClose]).
    split_and!; [by rewrite Htr| |].
    + intros name r' Hin. apply elem_of_cons in Hin as [?|Hin]; [done|].
      by apply Hnot in Hin.
    + exists None, (d ++ term ++ [EvTarClose; EvOsClose]). split; [done|].
      intros r''. by apply Hnot.
Qed.

End Runs.

(** ** The end of the stream *)

Section EndOfStream.
Context {HS : Type}.
Variable order : nat → list string → list string.
Hypothesis order_ok : admissible order.
Variable filepath_Clean : string → string.

Implicit Types (st : @State HS) (fv : option (@FileValidator HS)) (hs : HS).

(** The loop does not go beyond the first [io.EOF]. *)
Lemma stream_untilEOF fv rs :
  ∀ st, stream order fv rs st = stream order fv (untilEOF rs) st.
Proof.
  induction rs as [|[f|err] rs IH]; intros st; [done| |].
  - cbn [untilEOF]. rewrite !(stream_file order order_ok). cbv zeta.
    destruct (validated fv f _).1; [done|]. destruct (Close f); [done|]. apply IH.
  - cbn [untilEOF]. destruct err; cbn [isEOF]; by rewrite ?stream_fail.
Qed.

(** Without a validator the loop reaches the end only on a stream that is
    clean up to its first [io.EOF]. *)
Lemma stream_next_clean rs :
  ∀ st, (stream order None rs st).1 = Next tt → clean (untilEOF rs).
Proof.
  induction rs as [|[f|err] rs IH]; intros st; [by constructor| |].
  - rewrite (stream_file order order_ok). cbv zeta. rewrite validated_nil.
    cbn [untilEOF]. destruct (Close f) as [cerr|] eqn:Hc; [done|].
    intros Hnext. constructor; [done|]. by eapply IH.
  - rewrite stream_fail. cbn [fst untilEOF].
    destruct (isEOF err); [by constructor|done].
Qed.

(** X8. [validate] depends on the stream only up to the first [io.EOF]
    that [tar.Read()] returns: with whatever the reader would return after
    it cut off, the call returns the same error and makes the same calls. *)
Theorem stream_ends_at_EOF (fs fs' : string → error + Package) path fv hs rs :
  fs (filepath_Clean path) = inr (TarGz rs) →
  fs' (filepath_Clean path) = inr (TarGz (untilEOF rs)) →
  call filepath_Clean fs order path fv hs = call filepath_Clean fs' order path fv hs.
Proof.
  intros Hfs Hfs'. rewrite !call_eq. cbv zeta. rewrite Hfs, Hfs'.
  by rewrite (stream_untilEOF fv rs).
Qed.

(** X9. Without a validator, [validate] returns nil exactly for a tar.gz
    whose stream, up to the first [io.EOF], gives only entries that close
    without error, among them one called [fastly.toml] and one called
    [main.wasm]. *)
Theorem success_iff (fs : string → error + Package) path hs :
  outcome (call filepath_Clean fs order path (@None (@FileValidator HS)) hs) = None ↔
  ∃ rs, fs (filepath_Clean path) = inr (TarGz rs) ∧
        clean (untilEOF rs) ∧
        ∀ k, k ∈ required → k ∈ entryNames (untilEOF rs).
Proof.
  rewrite call_eq. cbv zeta.
  destruct (fs (filepath_Clean path)) as [err|[err|rs]] eqn:Hfs.
  - split; [done|]. by intros (rs & ? & _).
  - split; [done|]. by intros (rs & ? & _).
  - set (st0 := mkState hs filesLit 0 _).
    pose proof (stream_next_clean rs st0) as Hclean.
    rewrite (stream_untilEOF None rs st0) in *.
    pose proof (λ H, stream_files order order_ok None (untilEOF rs) H st0) as Hfiles.
    pose proof (λ H, stream_next order order_ok None (untilEOF rs) H I st0) as Hnext.
    destruct (stream order None (untilEOF rs) st0) as [[[]|k e] st] eqn:Hs;
      cbn [fst snd] in *.
    + specialize (Hclean eq_refl). specialize (Hfiles Hclean eq_refl).
      pose proof (terminal_spec order order_ok st _ Hfiles) as Hterm.
      unfold outcome. cbn [fst].
      destruct (terminal order st).1 as [[]|kind e].
      * split; [|done]. intros _. by exists rs.
      * split; [done|]. intros (rs' & Heq & _ & Hall). simplify_eq.
        destruct Hterm as (k & Hk & Hnk & _). by destruct Hnk; apply Hall.
    + split; [done|]. intros (rs' & Heq & Hclean' & _). simplify_eq.
      by specialize (Hnext Hclean').
Qed.

End EndOfStream.

(** ** The iteration order of the map *)

Section Orders.
Context {HS : Type}.
Variables order1 order2 : nat → list string → list string.
Hypothesis order1_ok : admissible order1.
Hypothesis order2_ok : admissible order2.
Variable filepath_Clean : string → string.
Variable fs : string → error + Package.

Implicit Types (st : @State HS) (fv : option (@FileValidator HS)) (hs : HS).

(** X7. Of a call of [validate], on any path and with any validator, the
    order in which [range] visits the map decides nothing but the name in
    the missing-file error: two calls under two orders make the same calls
    and leave the same state, and they return the same error unless neither
    required name has been seen, when each reports one of the two. *)
Theorem order_only_picks_the_name path fv hs :
  let c1 := call filepath_Clean fs order1 path fv hs in
  let c2 := call filepath_Clean fs order2 path fv hs in
  c1.2 = c2.2 ∧
  (outcome c1 = outcome c2 ∨
   ∃ k1 k2,
     outcome c1 = Some (MissingRequiredFileError, missingFile k1) ∧
     outcome c2 = Some (MissingRequiredFileError, missingFile k2) ∧
     ∀ k, k ∈ required → files c1.2 !! k = Some false).
Proof.
  cbv zeta. rewrite !call_eq. cbv zeta.
  destruct (fs (filepath_Clean path)) as [err|[err|rs]]; [by split; [|left]..|].
  rewrite (stream_order_irrelevant order1 order2 order1_ok order2_ok fv rs).
  set (st0 := mkState hs filesLit 0 _).
  destruct (stream_run order2 order2_ok fv rs st0) as (d & _ & _ & _ & _ & _ & _ & Hfiles & _).
  destruct (stream order2 fv rs st0) as [[[]|k e] st]; cbn [fst snd] in *;
    [|by split; [|left]].
  pose proof (terminal_spec order1 order1_ok st _ Hfiles) as H1.
  pose proof (terminal_spec order2 order2_ok st _ Hfiles) as H2.
  unfold terminal in *. rewrite !check_spec in *. cbn [fst snd] in *.
  split; [done|]. unfold outcome. cbn [fst snd logged files].
  destruct (List.find _ (order1 _ _)) as [k1|], (List.find _ (order2 _ _)) as [k2|].
  - destruct H1 as (k1' & Hk1 & Hn1 & _ & He1), H2 as (k2' & Hk2 & Hn2 & _ & He2).
    rewrite He1, He2.
    destruct (decide (k1' = k2')) as [->|Hne]; [by left|].
    right. exists k1', k2'. split_and!; [done|done|].
    intros k Hk. rewrite Hfiles, lookup_flags, decide_True by done.
    f_equal. apply bool_decide_eq_false.
    unfold required in *. rewrite !elem_of_cons, elem_of_nil in Hk, Hk1, Hk2.
    destruct Hk as [->|[->|[]]], Hk1 as [->|[->|[]]], Hk2 as [->|[->|[]]]; done.
  - destruct H1 as (k1' & Hk1 & Hn1 & _). by destruct Hn1; apply H2.
  - destruct H2 as (k2' & Hk2 & Hn2 & _). by destruct Hn2; apply H1.
  - by left.
Qed.


End Orders.

(** ** The command *)

Section CommandFacts.
Context {Source : Type} `{!EqDecision Source}.
Variable SourceUndefined : Source.
Variable ErrReadingManifest : error.
Variable sanitize_BaseName : string → string.
Variable filepath_Join : string → string → string.
Variable filepath_Abs : string → error + string.
Variable filepath_Clean : string → string.
Variable fs : string → error + Package.
Variable order : nat → list string → list string.
Hypothesis order_ok : admissible order.

Implicit Types (c : @ValidateCommand Source).

Local Abbreviation exec :=
  (Exec SourceUndefined ErrReadingManifest sanitize_BaseName filepath_Join
     filepath_Abs filepath_Clean fs order).
Local Abbreviation resolved :=
  (resolves SourceUndefined sanitize_BaseName filepath_Join).

(** Lines 42-61 for a command whose [packagePath] is known. *)
Lemma Exec_resolved c packagePath :
  resolved c packagePath →
  exec c =
  match filepath_Abs packagePath with
  | inl err =>
      mkExecRun (Some (PlainError (Errorf_w "error reading file path" err)))
        [(err, path c)] [] None
  | inr p =>
      let v := call filepath_Clean fs order p None tt in
      match outcome v with
      | Some (_, err) =>
          mkExecRun
            (Some (RemediationError (Errorf_w "failed to validate package" err)
                     buildRemediation))
            [(err, path c)] [] (Some v)
      | None => mkExecRun None [] ["Validated package " +:+ p] (Some v)
      end
  end.
Proof.
  unfold Exec. intros [[Hp ->]|(Hp & Hsrc & ->)].
  - by destruct (String.eqb_spec (path c) "").
  - rewrite Hp. cbn [String.eqb]. destruct (manifest c) as [name src].
    cbn [fst snd] in *. by rewrite decide_False.
Qed.

(** X10. What [Exec] returns tells what it has done.  It returns nil
    exactly when it has written the success message, and then [validate],
    called without validator on the absolute path of the message, has
    returned nil.  An error met once the path is known is logged once, under
    the value of the flag, and wrapped: a failure of [filepath.Abs] as a
    plain error, an error of [validate] in a remediation error.  The
    manifest error comes only with an empty flag and an undefined project
    name, before anything is opened or logged. *)
Theorem Exec_contract c :
  let r := exec c in
  match returned r with
  | None =>
      ∃ p, written r = ["Validated package " +:+ p] ∧ errLog r = [] ∧
           validation r = Some (call filepath_Clean fs order p None tt) ∧
           outcome (call filepath_Clean fs order p None tt) = None
  | Some (PlainError e) =>
      ∃ err, e = Errorf_w "error reading file path" err ∧
             errLog r = [(err, path c)] ∧ written r = [] ∧ validation r = None
  | Some (RemediationError inner remediation) =>
      remediation = buildRemediation ∧ written r = [] ∧
      ((inner = Errorf_w "failed to read project name" ErrReadingManifest ∧
        path c = "" ∧ (manifest c).2 = SourceUndefined ∧
        errLog r = [] ∧ validation r = None) ∨
       (∃ v kind err,
          validation r = Some v ∧ outcome v = Some (kind, err) ∧
          inner = Errorf_w "failed to validate package" err ∧
          errLog r = [(err, path c)]))
  end.
Proof.
  cbv zeta.
  assert (Hcases : (path c = "" ∧ (manifest c).2 = SourceUndefined) ∨
                   ∃ packagePath, resolved c packagePath).
  { destruct (decide (path c = "")) as [Hp|Hp].
    - destruct (decide ((manifest c).2 = SourceUndefined)) as [Hs|Hs]; [by left|].
      right. eexists. right. by split_and!.
    - right. eexists. left. by split. }
  destruct Hcases as [[Hp Hs]|[packagePath Hres]].
  - unfold Exec. rewrite Hp. cbn [String.eqb]. destruct (manifest c) as [name src].
    cbn [fst snd] in *. rewrite decide_True by done. cbn. split_and!; [done|done|].
    left. by split_and!.
  - rewrite (Exec_resolved c packagePath Hres).
    destruct (filepath_Abs packagePath) as [err|p]; cbn.
    + by exists err.
    + destruct (outcome (call filepath_Clean fs order p None tt)) as [[kind err]|] eqn:Ho; cbn.
      * split_and!; [done|done|]. right. by eexists _, kind, err.
      * by exists p.
Qed.

(** X11. A non-empty flag decides alone: whatever the manifest says,
    [Exec] behaves the same. *)
Theorem Exec_flag_overrides_manifest c m :
  path c ≠ "" →
  Exec SourceUndefined ErrReadingManifest sanitize_BaseName filepath_Join
    filepath_Abs filepath_Clean fs order (mkValidateCommand m (path c))
  = Exec SourceUndefined ErrReadingManifest sanitize_BaseName filepath_Join
      filepath_Abs filepath_Clean fs order c.
Proof.
  intros Hp.
  rewrite (Exec_resolved c (path c)) by (left; by split).
  by rewrite (Exec_resolved (mkValidateCommand m (path c)) (path c)) by (left; by split).
Qed.

(** X12. End to end: when the package path, given by the flag or derived
    from the project name as [pkg/<name>.tar.gz], is that of a tar.gz that
    streams without error and has entries called [fastly.toml] and
    [main.wasm], [Exec] returns nil, writes the success message with the
    absolute path and logs nothing. *)
Theorem Exec_succeeds c packagePath p rs :
  resolved c packagePath →
  filepath_Abs packagePath = inr p →
  fs (filepath_Clean p) = inr (TarGz rs) →
  clean rs →
  "fastly.toml" ∈ entryNames rs →
  "main.wasm" ∈ entryNames rs →
  returned (exec c) = None ∧
  written (exec c) = ["Validated package " +:+ p] ∧
  errLog (exec c) = [].
Proof.
  intros Hres Habs Hfs Hclean Htoml Hwasm.
  rewrite (Exec_resolved c packagePath Hres), Habs. cbv zeta.
  destruct (call_clean order order_ok filepath_Clean fs p None tt rs Hfs Hclean I)
    as (st & Hfiles & ->).
  pose proof (terminal_spec order order_ok st _ Hfiles) as Hterm. unfold outcome.
  destruct (terminal order st).1 as [[]|kind e]; [done|].
  destruct Hterm as (k & Hk & Hnk & _). exfalso. apply Hnk.
  unfold required in Hk. rewrite !elem_of_cons, elem_of_nil in Hk.
  by destruct Hk as [->|[->|[]]].
Qed.

(** X13. End to end: when the package is a tar.gz that streams without
    error but lacks a required name, [Exec] writes nothing and returns a
    remediation error around "failed to validate package" and the
    missing-file error of a name that is missing; it logs that error once,
    under the value of the flag (empty when the path was derived). *)
Theorem Exec_reports_missing_file c packagePath p rs :
  resolved c packagePath →
  filepath_Abs packagePath = inr p →
  fs (filepath_Clean p) = inr (TarGz rs) →
  clean rs →
  (∃ k, k ∈ required ∧ k ∉ entryNames rs) →
  ∃ k, k ∈ required ∧ (k ∉ entryNames rs) ∧
       returned (exec c)
       = Some (RemediationError (Errorf_w "failed to validate package" (missingFile k))
                 buildRemediation) ∧
       errLog (exec c) = [(missingFile k, path c)] ∧
       written (exec c) = [].
Proof.
  intros Hres Habs Hfs Hclean (k0 & Hk0 & Hnk0).
  rewrite (Exec_resolved c packagePath Hres), Habs. cbv zeta.
  destruct (call_clean order order_ok filepath_Clean fs p None tt rs Hfs Hclean I)
    as (st & Hfiles & ->).
  pose proof (terminal_spec order order_ok st _ Hfiles) as Hterm. unfold outcome.
  destruct (terminal order st).1 as [[]|kind e].
  - by destruct Hnk0; apply Hterm.
  - destruct Hterm as (k & Hk & Hnk & -> & ->). by exists k.
Qed.

End CommandFacts.

(** ** The further statements on concrete archives *)

(** X1 on the archive whose second entry the validator rejects. *)
Lemma resources_released_witness :
  let c := call cleanPath (packageOf withSecret) id_order pkg (Some rejectSecret) 0 in
  ∃ body, trace c.2 = body ++ [EvTarClose; EvOsClose] ∧
          (EvOsClose ∉ body) ∧ EvTarClose ∉ body.
Proof.
  exact (resources_released id_order id_order_admissible cleanPath
           (packageOf withSecret) pkg (Some rejectSecret) 0).
Defined.

(** X2 on the archive whose rejected entry does not close. *)
Lemma entries_closed_in_turn_witness :
  let c := call cleanPath (packageOf withLeakySecret) rev_order pkg (Some rejectSecret) 0 in
  entryOps (trace c.2) = filesRead (trace c.2) ≫= (λ f, [Opened f; Closed f]) ∧
  filesRead (trace c.2) = [mkFile "main.wasm" None; leakyKey].
Proof.
  split; [|by vm_compute].
  exact (entries_closed_in_turn rev_order rev_order_admissible cleanPath
           (packageOf withLeakySecret) pkg (Some rejectSecret) 0).
Defined.

(** X3 with the counting validator: two entries read, two calls. *)
Lemma validator_sees_every_entry_witness :
  let c := call cleanPath (packageOf withSecret) id_order pkg (Some rejectSecret) 0 in
  (filesValidated (trace c.2) = filesRead (trace c.2) ∧
   hstate c.2 = hookRun (Some rejectSecret) (filesRead (trace c.2)) 0) ∧
  hstate c.2 = 2.
Proof.
  split; [|by vm_compute].
  exact (validator_sees_every_entry id_order id_order_admissible cleanPath
           (packageOf withSecret) pkg (Some rejectSecret) 0).
Defined.


(** X5 on the complete archive. *)
Lemma success_needs_both_names_witness :
  let c := call cleanPath (packageOf complete) rev_order pkg (Some acceptAll) 0 in
  outcome c = None ∧
  ∃ rs, packageOf complete (cleanPath pkg) = inr (TarGz rs) ∧
        ∀ k, k ∈ required →
             ∃ f, ReadFile f ∈ rs ∧ Name f = k ∧ f ∈ filesRead (trace c.2).
Proof.
  cbv zeta.
  assert (Hok : outcome (call cleanPath (packageOf complete) rev_order pkg
                           (Some acceptAll) 0) = None) by (by vm_compute).
  split; [exact Hok|].
  exact (success_needs_both_names rev_order rev_order_admissible cleanPath
           (packageOf complete) pkg (Some acceptAll) 0 Hok).
Defined.

(** X6 on the archive with [subdir/main.wasm] and [fastly.toml], and on
    the archive with [docs/README.md] and [fastly.toml]. *)
Lemma flags_record_names_read_witness :
  (let c := call cleanPath (packageOf nestedArchive) id_order pkg
              (@None (@FileValidator unit)) tt in
   files c.2 !! "main.wasm" = Some true ∧
   files c.2 !! "fastly.toml" = Some true ∧
   files c.2 !! "subdir/main.wasm" = None) ∧
  (let c := call cleanPath (packageOf tomlAndReadme) id_order pkg
              (@None (@FileValidator unit)) tt in
   files c.2 !! "main.wasm" = Some false ∧
   files c.2 !! "fastly.toml" = Some true ∧
   files c.2 !! "README.md" = None).
Proof.
  cbv zeta. split; split_and!.
  - rewrite (flags_record_names_read id_order id_order_admissible cleanPath
               (packageOf nestedArchive) pkg None tt _ "main.wasm" eq_refl).
    by vm_compute.
  - rewrite (flags_record_names_read id_order id_order_admissible cleanPath
               (packageOf nestedArchive) pkg None tt _ "fastly.toml" eq_refl).
    by vm_compute.
  - rewrite (flags_record_names_read id_order id_order_admissible cleanPath
               (packageOf nestedArchive) pkg None tt _ "subdir/main.wasm" eq_refl).
    by vm_compute.
  - rewrite (flags_record_names_read id_order id_order_admissible cleanPath
               (packageOf tomlAndReadme) pkg None tt _ "main.wasm" eq_refl).
    by vm_compute.
  - rewrite (flags_record_names_read id_order id_order_admissible cleanPath
               (packageOf tomlAndReadme) pkg None tt _ "fastly.toml" eq_refl).
    by vm_compute.
  - rewrite (flags_record_names_read id_order id_order_admissible cleanPath
               (packageOf tomlAndReadme) pkg None tt _ "README.md" eq_refl).
    by vm_compute.
Defined.

(** X7 on the archive with no entry, under the two orders. *)
Lemma order_only_picks_the_name_witness :
  let c1 := call cleanPath (packageOf []) id_order pkg (@None (@FileValidator unit)) tt in
  let c2 := call cleanPath (packageOf []) rev_order pkg (@None (@FileValidator unit)) tt in
  c1.2 = c2.2 ∧
  (outcome c1 = outcome c2 ∨
   ∃ k1 k2,
     outcome c1 = Some (MissingRequiredFileError, missingFile k1) ∧
     outcome c2 = Some (MissingRequiredFileError, missingFile k2) ∧
     ∀ k, k ∈ required → files c1.2 !! k = Some false).
Proof.
  exact (order_only_picks_the_name id_order rev_order id_order_admissible
           rev_order_admissible cleanPath (packageOf []) pkg None tt).
Defined.

(** X8 on a stream whose reader goes on after [io.EOF]. *)
Lemma stream_ends_at_EOF_witness :
  untilEOF pastEOF = onlyToml ∧
  call cleanPath (packageOf pastEOF) id_order pkg (Some acceptAll) 0
  = call cleanPath (packageOf onlyToml) id_order pkg (Some acceptAll) 0.
Proof.
  split; [reflexivity|].
  exact (stream_ends_at_EOF id_order id_order_admissible cleanPath
           (packageOf pastEOF) (packageOf onlyToml) pkg (Some acceptAll) 0 pastEOF
           eq_refl eq_refl).
Defined.

(** X9 on the complete archive. *)
Lemma success_iff_witness :
  outcome (call cleanPath (packageOf complete) id_order pkg (@None (@FileValidator unit)) tt)
  = None.
Proof.
  apply (success_iff id_order id_order_admissible cleanPath (packageOf complete) pkg tt).
  exists complete. split_and!; [reflexivity|repeat constructor|].
  intros k Hk. unfold required in Hk. rewrite !elem_of_cons, elem_of_nil in Hk.
  destruct Hk as [->|[->|[]]]; compute_done.
Defined.

(** X10 on a command with an empty flag and no project name. *)
Lemma Exec_contract_witness :
  let r := execOn complete (mkValidateCommand ("", false) "") in
  returned r = Some (RemediationError
                       (Errorf_w "failed to read project name" errReadingManifest)
                       buildRemediation) ∧
  errLog r = [] ∧ written r = [] ∧ validation r = None.
Proof.
  cbv zeta.
  pose proof (Exec_contract false errReadingManifest baseName joinPath absPath cleanPath
                (packageOf complete) id_order (mkValidateCommand ("", false) "")) as H.
  cbv zeta in H. fold (execOn complete (mkValidateCommand ("", false) "")) in H.
  destruct (returned (execOn complete (mkValidateCommand ("", false) ""))) as [[e|inner rem]|] eqn:Hr;
    [by vm_compute in Hr| |by vm_compute in Hr].
  destruct H as (-> & Hw & [(-> & _ & _ & Hl & Hv)|(v & kind & err & Hv & _)]).
  - by split_and!.
  - by vm_compute in Hv.
Defined.

(** X11 on a command with a flag. *)
Lemma Exec_flag_overrides_manifest_witness :
  path fromFlag ≠ "" ∧
  execOn complete (mkValidateCommand ("other", true) (path fromFlag))
  = execOn complete fromFlag.
Proof.
  assert (Hp : path fromFlag ≠ "") by done.
  split; [exact Hp|].
  exact (Exec_flag_overrides_manifest false errReadingManifest baseName joinPath absPath
           cleanPath (packageOf complete) id_order fromFlag ("other", true) Hp).
Defined.

(** X12 on the project [app], without flag. *)
Lemma Exec_succeeds_witness :
  resolves false baseName joinPath fromManifest "pkg/app.tar.gz" ∧
  returned (execOn complete fromManifest) = None ∧
  written (execOn complete fromManifest)
  = ["Validated package /home/dev/app/pkg/app.tar.gz"] ∧
  errLog (execOn complete fromManifest) = [].
Proof.
  assert (Hres : resolves false baseName joinPath fromManifest "pkg/app.tar.gz")
    by (right; by split_and!).
  split; [exact Hres|].
  apply (Exec_succeeds false errReadingManifest baseName joinPath absPath cleanPath
           (packageOf complete) id_order id_order_admissible fromManifest
           "pkg/app.tar.gz" "/home/dev/app/pkg/app.tar.gz" complete Hres eq_refl eq_refl).
  - repeat constructor.
  - compute_done.
  - compute_done.
Defined.

(** X13 on the project [app], without flag, packaged without [main.wasm]. *)
Lemma Exec_reports_missing_file_witness :
  ∃ k, k ∈ required ∧ (k ∉ entryNames onlyToml) ∧
       returned (execOn onlyToml fromManifest)
       = Some (RemediationError (Errorf_w "failed to validate package" (missingFile k))
                 buildRemediation) ∧
       errLog (execOn onlyToml fromManifest) = [(missingFile k, "")] ∧
       written (execOn onlyToml fromManifest) = [].
Proof.
  apply (Exec_reports_missing_file false errReadingManifest baseName joinPath absPath
           cleanPath (packageOf onlyToml) id_order id_order_admissible fromManifest
           "pkg/app.tar.gz" "/home/dev/app/pkg/app.tar.gz" onlyToml).
  - right. by split_and!.
  - reflexivity.
  - reflexivity.
  - repeat constructor.
  - exists "main.wasm". split; compute_done.
Defined.

(** X14 on a path with no file and on the complete archive. *)
Lemma opens_only_the_package_witness :
  (let c := call cleanPath noFile id_order "missing.tar.gz" (Some acceptAll) 0 in
   ∃ r rest, trace c.2 = EvOpen "missing.tar.gz" r :: rest ∧
     (∀ name r', EvOpen name r' ∉ rest) ∧
     match r with
     | Some _ => rest = []
     | None => ∃ r' rest', rest = EvTarOpen r' :: rest' ∧ ∀ r'', EvTarOpen r'' ∉ rest'
     end) ∧
  (let c := call cleanPath (packageOf complete) id_order pkg (Some acceptAll) 0 in
   ∃ r rest, trace c.2 = EvOpen pkg r :: rest ∧
     (∀ name r', EvOpen name r' ∉ rest) ∧
     match r with
     | Some _ => rest = []
     | None => ∃ r' rest', rest = EvTarOpen r' :: rest' ∧ ∀ r'', EvTarOpen r'' ∉ rest'
     end).
Proof.
  split.
  - exact (opens_only_the_package id_order id_order_admissible cleanPath noFile
             "missing.tar.gz" (Some acceptAll) 0).
  - exact (opens_only_the_package id_order id_order_admissible cleanPath
             (packageOf complete) pkg (Some acceptAll) 0).
Defined.


